(** * Verification model of [tweet_bot.py] (cyber-awareness-bot)

    A shallow embedding of the thread composer, the history log, the fallback
    pool and the poster of [src/tweet_bot.py].

    - A Python [str] is a list of Unicode code points ([pystr := list N]);
      [len] is [List.length].
    - The Unicode tables used by [str.isspace], [str.isdigit] and
      [str.splitlines] are those of CPython 3.11, written as code-point ranges.
    - Effects (files, random draws, the posting API, sleeps) are threaded
      through a state-and-exception monad [M]: a raised exception keeps the
      state reached so far, as in Python. *)

From Stdlib Require Import String Ascii.
From Stdlib Require Import List NArith ZArith Bool Lia.
Import ListNotations.
Open Scope list_scope.
Set Warnings "-register-all".

(* ------------------------------------------------------------------ *)
(** ** Python strings *)

Abbreviation pystr := (list N).

(** An ASCII literal as a Python string. *)
Definition s (x : string) : pystr :=
  map (fun a => N_of_ascii a) (list_ascii_of_string x).

Definition SPACE : N := 32.
Definition ELLIPSIS : N := 8230.   (* U+2026, "…" *)

Fixpoint in_ranges (c : N) (rs : list (N * N)) : bool :=
  match rs with
  | [] => false
  | (lo, hi) :: rs' => ((lo <=? c)%N && (c <=? hi)%N) || in_ranges c rs'
  end.

(** [str.isspace] on one character. *)
Definition isspace (c : N) : bool :=
  in_ranges c [(9,13); (28,32); (133,133); (160,160); (5760,5760);
               (8192,8202); (8232,8233); (8239,8239); (8287,8287);
               (12288,12288)]%N.

(** [str.isdigit] on one character. *)
Definition isdigit (c : N) : bool :=
  in_ranges c
    [(48,57); (178,179); (185,185); (1632,1641); (1776,1785); (1984,1993);
     (2406,2415); (2534,2543); (2662,2671); (2790,2799); (2918,2927);
     (3046,3055); (3174,3183); (3302,3311); (3430,3439); (3558,3567);
     (3664,3673); (3792,3801); (3872,3881); (4160,4169); (4240,4249);
     (4969,4977); (6112,6121); (6160,6169); (6470,6479); (6608,6618);
     (6784,6793); (6800,6809); (6992,7001); (7088,7097); (7232,7241);
     (7248,7257); (8304,8304); (8308,8313); (8320,8329); (9312,9320);
     (9332,9340); (9352,9360); (9450,9450); (9461,9469); (9471,9471);
     (10102,10110); (10112,10120); (10122,10130); (42528,42537);
     (43216,43225); (43264,43273); (43472,43481); (43504,43513);
     (43600,43609); (44016,44025); (65296,65305); (66720,66729);
     (68160,68163); (68912,68921); (69216,69224); (69714,69722);
     (69734,69743); (69872,69881); (69942,69951); (70096,70105);
     (70384,70393); (70736,70745); (70864,70873); (71248,71257);
     (71360,71369); (71472,71481); (71904,71913); (72016,72025);
     (72784,72793); (73040,73049); (73120,73129); (92768,92777);
     (92864,92873); (93008,93017); (120782,120831); (123200,123209);
     (123632,123641); (125264,125273); (127232,127242); (130032,130041)]%N.

(** The line boundaries of [str.splitlines] other than ["\r"]. *)
Definition is_linebreak (c : N) : bool :=
  in_ranges c [(10,12); (28,30); (133,133); (8232,8233)]%N.

(** [s.lstrip(chars)] *)
Fixpoint lstrip_chars (chars : pystr) (x : pystr) : pystr :=
  match x with
  | [] => []
  | c :: x' => if existsb (N.eqb c) chars then lstrip_chars chars x' else x
  end.

(** [s.lstrip()] and [s.strip()] (whitespace). *)
Fixpoint lstrip (x : pystr) : pystr :=
  match x with
  | [] => []
  | c :: x' => if isspace c then lstrip x' else x
  end.

Definition rstrip (x : pystr) : pystr := rev (lstrip (rev x)).

Definition strip (x : pystr) : pystr := rstrip (lstrip x).

(** [sub in x] for strings. *)
Fixpoint starts_with (pre x : pystr) : bool :=
  match pre, x with
  | [], _ => true
  | c :: pre', d :: x' => N.eqb c d && starts_with pre' x'
  | _ :: _, [] => false
  end.

Fixpoint contains (sub x : pystr) : bool :=
  starts_with sub x ||
  match x with
  | [] => false
  | _ :: x' => contains sub x'
  end.

(** [x.rfind(c)] for a one-character needle: the last index, or -1. *)
Fixpoint rfind_from (c : N) (x : pystr) (i : Z) (found : Z) : Z :=
  match x with
  | [] => found
  | d :: x' => rfind_from c x' (i + 1)%Z (if N.eqb c d then i else found)
  end.

Definition rfind (c : N) (x : pystr) : Z := rfind_from c x 0%Z (-1)%Z.

(** [x[:k]] with Python's reading of a negative bound. *)
Definition slice_to (k : Z) (x : pystr) : pystr :=
  if (k <? 0)%Z then firstn (Z.to_nat (Z.of_nat (length x) + k)) x
  else firstn (Z.to_nat k) x.

(** [str.splitlines()]: ["\r\n"] is one boundary, no trailing empty line. *)
Fixpoint splitlines_aux (x : pystr) (cur : pystr) : list pystr :=
  match x with
  | [] => match cur with [] => [] | _ => [rev cur] end
  | c :: x' =>
      if N.eqb c 13 then
        match x' with
        | 10%N :: x'' => rev cur :: splitlines_aux x'' []
        | _ => rev cur :: splitlines_aux x' []
        end
      else if is_linebreak c then rev cur :: splitlines_aux x' []
      else splitlines_aux x' (c :: cur)
  end.

Definition splitlines (x : pystr) : list pystr := splitlines_aux x [].

(* ------------------------------------------------------------------ *)
(** ** Configuration *)

Definition MAX_TWEET_LEN : nat := 280.

Definition CTA : pystr :=
  s "Was this useful? Like, Share & Comment to help others stay safe.".

Definition HASHTAG_BUCKETS : list (list pystr) :=
  [ [s "#CyberSecurity"; s "#InfoSec"; s "#DataPrivacy"];
    [s "#CyberAwareness"; s "#SecurityTips"; s "#OnlineSafety"];
    [s "#Phishing"; s "#Ransomware"; s "#Malware"] ].

Definition FILLER : pystr :=
  s "Cybersecurity awareness matters. Stay safe online.".

(* ------------------------------------------------------------------ *)
(** ** [clamp_tweet] *)

Definition clamp_tweet (text : pystr) : pystr :=
  if length text <=? MAX_TWEET_LEN then strip text
  else
    let cut := firstn (MAX_TWEET_LEN - 1) text in
    let cut := if existsb (N.eqb SPACE) cut then slice_to (rfind SPACE cut) cut
               else cut in
    strip (cut ++ [ELLIPSIS]).

(* ------------------------------------------------------------------ *)
(** ** JSON values, files and the state-and-exception monad *)

(** A value produced by [json.load].  JSON numbers are kept as integers: the
    program never looks inside a number. *)
Inductive json : Type :=
| JNull
| JBool (b : bool)
| JNum (z : Z)
| JStr (v : pystr)
| JArr (l : list json)
| JObj (kvs : list (pystr * json)).

(** A lone surrogate (U+D800..U+DFFF): a Python [str] may hold one (for
    instance from the JSON escape ["\ud800"]), but UTF-8 cannot encode it. *)
Definition is_surrogate (c : N) : bool := (55296 <=? c)%N && (c <=? 57343)%N.

(** Some string of [v], a dict key included, holds a lone surrogate. *)
Fixpoint has_surrogate (v : json) : bool :=
  match v with
  | JStr x => existsb is_surrogate x
  | JArr l => existsb has_surrogate l
  | JObj kvs => existsb (fun '(k, x) => existsb is_surrogate k || has_surrogate x) kvs
  | _ => false
  end.

(** What is at a path, as seen by [open] followed by [json.load]:
    [Unopenable] when the path exists but [open] raises on it, for reading
    and for writing alike (a directory, a file the process may not access);
    [NotJson] for a file that opens but whose content does not decode as
    UTF-8 or does not parse as JSON; [Json v] when [json.load] returns [v].
    A file written by [json.dump(v, f)] is read back as [Json v]. *)
Inductive file_entry : Type :=
| Unopenable
| NotJson
| Json (v : json).

(** The answer of one [twitter.create_tweet] call: [ApiOk id] carries
    [str(res.data["id"])]; [ApiErr] is a raised exception. *)
Inductive api_result : Type :=
| ApiOk (id : pystr)
| ApiErr.

Record world : Type := mkWorld {
  files : string -> option file_entry;
  rng : list nat;                       (* draws of [random] still to come *)
  api : list api_result;                (* answers of the posting API, in call order *)
  posted : list (json * option pystr);  (* tweets created: text, in_reply_to *)
  slept : list nat                      (* arguments of [time.sleep], in order *)
}.

Inductive exn : Type :=
| FileNotFoundError | JSONDecodeError | ValueError | KeyError | TypeError
| AttributeError | IndexError | TweepyException | HFError
| OSError | UnicodeEncodeError.

Inductive outcome (A : Type) : Type :=
| Ok (a : A)
| Raise (e : exn).
Arguments Ok {A} a.
Arguments Raise {A} e.

Definition M (A : Type) : Type := world -> outcome A * world.

Definition ret {A} (a : A) : M A := fun w => (Ok a, w).

Definition raise {A} (e : exn) : M A := fun w => (Raise e, w).

Definition bind {A B} (m : M A) (k : A -> M B) : M B :=
  fun w => match m w with
           | (Ok a, w') => k a w'
           | (Raise e, w') => (Raise e, w')
           end.

Notation "x <- m ;; k" := (bind m (fun x => k))
  (at level 61, m at next level, right associativity).
Notation "m ;;; k" := (bind m (fun _ => k))
  (at level 61, right associativity).

(** [try: m  except Exception as e: handler(e)] *)
Definition try_except {A} (m : M A) (handler : exn -> M A) : M A :=
  fun w => match m w with
           | (Ok a, w') => (Ok a, w')
           | (Raise e, w') => handler e w'
           end.

Definition set_files (w : world) f :=
  mkWorld f (rng w) (api w) (posted w) (slept w).
Definition set_rng (w : world) r :=
  mkWorld (files w) r (api w) (posted w) (slept w).

Definition os_path_exists (fn : string) : M bool :=
  fun w => (Ok (match files w fn with Some _ => true | None => false end), w).

(** [with open(fn, "r", encoding="utf-8") as f: json.load(f)] *)
Definition json_load_file (fn : string) : M json :=
  fun w => match files w fn with
           | None => (Raise FileNotFoundError, w)
           | Some Unopenable => (Raise OSError, w)
           | Some NotJson => (Raise JSONDecodeError, w)
           | Some (Json v) => (Ok v, w)
           end.

(** [with open(fn, "w", encoding="utf-8") as f: json.dump(v, f, indent=2,
    ensure_ascii=False)]: [open] raises on an unopenable path and otherwise
    truncates the file; with [ensure_ascii=False] a lone surrogate reaches
    the UTF-8 encoder, which raises [UnicodeEncodeError] while the text is
    being written, leaving a strict prefix of it in the file -- never valid
    JSON, since the closing bracket is missing. *)
Definition json_dump_file (fn : string) (v : json) : M unit :=
  fun w => match files w fn with
           | Some Unopenable => (Raise OSError, w)
           | _ =>
               if has_surrogate v then
                 (Raise UnicodeEncodeError,
                  set_files w (fun p => if String.eqb p fn then Some NotJson
                                        else files w p))
               else
                 (Ok tt, set_files w (fun p => if String.eqb p fn then Some (Json v)
                                               else files w p))
           end.

Definition sleep (n : nat) : M unit :=
  fun w => (Ok tt, mkWorld (files w) (rng w) (api w) (posted w) (slept w ++ [n])).

(** One draw of the random source, reduced below [n]. *)
Definition rand_below (n : nat) : M nat :=
  fun w => match rng w with
           | [] => (Ok 0, w)
           | r :: rs => (Ok (r mod n), set_rng w rs)
           end.

(** [random.choice(l)] *)
Definition random_choice {A} (l : list A) : M A :=
  match l with
  | [] => raise IndexError
  | d :: _ => i <- rand_below (length l) ;; ret (nth i l d)
  end.

Fixpoint remove_nth {A} (i : nat) (l : list A) : list A :=
  match i, l with
  | _, [] => []
  | 0, _ :: l' => l'
  | S i', x :: l' => x :: remove_nth i' l'
  end.

(** [random.sample(l, k)]: [k] distinct positions drawn without replacement. *)
Fixpoint random_sample {A} (l : list A) (k : nat) : M (list A) :=
  match k with
  | 0 => ret []
  | S k' =>
      match l with
      | [] => raise ValueError
      | d :: _ =>
          i <- rand_below (length l) ;;
          rest <- random_sample (remove_nth i l) k' ;;
          ret (nth i l d :: rest)
      end
  end.

(** [sep.join(xs)] for a one-character separator. *)
Fixpoint join (sep : N) (xs : list pystr) : pystr :=
  match xs with
  | [] => []
  | [x] => x
  | x :: xs' => x ++ [sep] ++ join sep xs'
  end.

(* ------------------------------------------------------------------ *)
(** ** Python operations on JSON values *)

Fixpoint str_eqb (x y : pystr) : bool :=
  match x, y with
  | [], [] => true
  | c :: x', d :: y' => N.eqb c d && str_eqb x' y'
  | _, _ => false
  end.

(** [d[k]] on a dict built by [json.load]: a repeated key keeps its last value. *)
Definition obj_lookup (k : pystr) (kvs : list (pystr * json)) : option json :=
  fold_left (fun acc kv => if str_eqb k (fst kv) then Some (snd kv) else acc)
            kvs None.

(** [h[k]] for a string key. *)
Definition get_item (h : json) (k : pystr) : M json :=
  match h with
  | JObj kvs => match obj_lookup k kvs with
                | Some v => ret v
                | None => raise KeyError
                end
  | _ => raise TypeError
  end.

(** The keys of a dict built by [json.load], each once, in order of first
    appearance (a repeated key keeps its first position). *)
Fixpoint obj_keys (seen : list pystr) (kvs : list (pystr * json)) : list pystr :=
  match kvs with
  | [] => []
  | (k, _) :: kvs' => if existsb (str_eqb k) seen then obj_keys seen kvs'
                      else k :: obj_keys (k :: seen) kvs'
  end.

(** [for x in v] / [tuple(v)] *)
Definition py_iter (v : json) : M (list json) :=
  match v with
  | JArr l => ret l
  | JObj kvs => ret (map JStr (obj_keys [] kvs))
  | JStr x => ret (map (fun c => JStr [c]) x)
  | _ => raise TypeError
  end.

Definition hashable (v : json) : bool :=
  match v with
  | JArr _ | JObj _ => false
  | _ => true
  end.

(** [a == b] on hashable values ([True == 1], [False == 0]). *)
Definition py_eq (a b : json) : bool :=
  match a, b with
  | JNull, JNull => true
  | JBool x, JBool y => Bool.eqb x y
  | JNum x, JNum y => Z.eqb x y
  | JBool x, JNum y | JNum y, JBool x => Z.eqb (if x then 1 else 0)%Z y
  | JStr x, JStr y => str_eqb x y
  | _, _ => false
  end.

(** [tuple(a) == tuple(b)] *)
Fixpoint tuple_eq (a b : list json) : bool :=
  match a, b with
  | [], [] => true
  | x :: a', y :: b' => py_eq x y && tuple_eq a' b'
  | _, _ => false
  end.

(** [h == "..."] *)
Definition py_eq_str (v : json) (x : pystr) : bool :=
  match v with JStr y => str_eqb y x | _ => false end.

(* ------------------------------------------------------------------ *)
(** ** [load_fallback_threads], [load_log], [save_log], [pick_fallback] *)

Definition LOG_FILE : string := "posted_log.json".

Definition TOPICS : list pystr :=
  [ s "phishing awareness"; s "ransomware basics for non-tech users";
    s "password hygiene and MFA"; s "social engineering red flags";
    s "mobile banking safety"; s "cloud account hardening for small teams";
    s "insider threats: human factors"; s "safe software updates and patching";
    s "public Wi-Fi risks and VPN basics"; s "data privacy and oversharing" ].

(** The pool returned by the [except] branch of [load_fallback_threads]. *)
Definition DEFAULT_POOL : list (list json) :=
  [ [ JStr (s "Cybersecurity awareness matters.");
      JStr (s "Always double-check links before clicking.");
      JStr (s "Enable MFA to protect your accounts.");
      JStr (s "Keep your software updated.");
      JStr (s "Was this useful? Like, Share & Comment to help others stay safe. #CyberAwareness") ] ].

(** [isinstance(data, list) and all(isinstance(t, list) for t in data)],
    returning the lists when it holds. *)
Definition as_list_of_lists (data : json) : option (list (list json)) :=
  match data with
  | JArr ts =>
      fold_right (fun t acc => match t, acc with
                               | JArr l, Some ls => Some (l :: ls)
                               | _, _ => None
                               end) (Some []) ts
  | _ => None
  end.

(** The warning printed in the [except] branch is not modelled. *)
Definition load_fallback_threads (filename : string) : M (list (list json)) :=
  try_except
    (data <- json_load_file filename ;;
     match as_list_of_lists data with
     | Some ts => ret ts
     | None => raise ValueError
     end)
    (fun _ => ret DEFAULT_POOL).

Definition load_log : M json :=
  ex <- os_path_exists LOG_FILE ;;
  if negb ex then ret (JArr [])
  else try_except (json_load_file LOG_FILE) (fun _ => ret (JArr [])).

(** [history.append(entry)] exists only on a list: any other value raises
    [AttributeError]. *)
Definition save_log (entry : json) : M unit :=
  history <- load_log ;;
  match history with
  | JArr hs => json_dump_file LOG_FILE (JArr (hs ++ [entry]))
  | _ => raise AttributeError
  end.

(** [{tuple(h["tweets"]) for h in history if h["source"] == "fallback"}];
    building the set raises [TypeError] on an unhashable member. *)
Fixpoint collect_used (hs : list json) : M (list (list json)) :=
  match hs with
  | [] => ret []
  | h :: hs' =>
      src <- get_item h (s "source") ;;
      if py_eq_str src (s "fallback") then
        tw <- get_item h (s "tweets") ;;
        key <- py_iter tw ;;
        if forallb hashable key then
          rest <- collect_used hs' ;; ret (key :: rest)
        else raise TypeError
      else collect_used hs'
  end.

(** [[t for t in fallback_threads if tuple(t) not in used]] *)
Fixpoint filter_unused (pool used : list (list json)) : M (list (list json)) :=
  match pool with
  | [] => ret []
  | t :: pool' =>
      if forallb hashable t then
        rest <- filter_unused pool' used ;;
        ret (if existsb (tuple_eq t) used then rest else t :: rest)
      else raise TypeError
  end.

Definition pick_fallback (fallback_threads : list (list json)) : M (list json) :=
  history <- load_log ;;
  hs <- py_iter history ;;
  used <- collect_used hs ;;
  unused <- filter_unused fallback_threads used ;;
  match unused with
  | [] => random_choice fallback_threads
  | _ => random_choice unused
  end.

(* ------------------------------------------------------------------ *)
(** ** [pick_hashtags] and [parse_thread_list] *)

Definition pick_hashtags : M pystr :=
  bucket <- random_choice HASHTAG_BUCKETS ;;
  k <- random_choice [2; 3] ;;
  tags <- random_sample bucket k ;;
  ret (join SPACE tags).

(** [if ln[0].isdigit(): ln = ln.lstrip("12345). -")] *)
Definition strip_ordinal (ln : pystr) : pystr :=
  match ln with
  | c :: _ => if isdigit c then lstrip_chars (s "12345). -") ln else ln
  | [] => ln
  end.

(** [[ln.strip() for ln in raw.strip().splitlines() if ln.strip()]] *)
Definition nonempty_lines (raw : pystr) : list pystr :=
  filter (fun ln => negb (Nat.eqb (length ln) 0))
         (map strip (splitlines (strip raw))).

(** [tweets[-1] = x] on a non-empty list. *)
Definition set_last (tweets : list pystr) (x : pystr) : list pystr :=
  removelast tweets ++ [x].

(** Lines 150-158 of [parse_thread_list]: the five segments before the last
    one is augmented. *)
Definition thread_segments (raw : pystr) : list pystr :=
  let lines := nonempty_lines raw in
  let tweets := map (fun ln => clamp_tweet (strip_ordinal ln)) lines in
  let tweets := firstn 5 tweets in
  tweets ++ repeat FILLER (5 - length tweets).

Definition parse_thread_list (raw : pystr) : M (list pystr) :=
  let tweets := thread_segments raw in
  let last0 := last tweets [] in
  ht <- pick_hashtags ;;
  let last1 := if contains CTA last0 then last0
               else clamp_tweet (last0 ++ [SPACE] ++ CTA) in
  let last2 := if length last1 + 1 + length ht <=? MAX_TWEET_LEN
               then last1 ++ [SPACE] ++ ht else last1 in
  ret (set_last tweets (clamp_tweet last2)).

(* ------------------------------------------------------------------ *)
(** ** [post_thread] *)

(** [twitter.create_tweet(text=text[, in_reply_to_tweet_id=parent])] followed
    by [str(res.data["id"])]; an exhausted script of answers also raises. *)
Definition create_tweet (text : json) (parent : option pystr) : M pystr :=
  fun w => match api w with
           | ApiOk tid :: rest =>
               (Ok tid, mkWorld (files w) (rng w) rest
                                (posted w ++ [(text, parent)]) (slept w))
           | ApiErr :: rest =>
               (Raise TweepyException,
                mkWorld (files w) (rng w) rest (posted w) (slept w))
           | [] => (Raise TweepyException, w)
           end.

(** [if parent_id:] -- [None] and [""] are false. *)
Definition truthy_id (p : option pystr) : option pystr :=
  match p with
  | Some (_ :: _) => p
  | _ => None
  end.

(** [for attempt in range(3): try: ...; break
     except Exception as e: time.sleep(2 + attempt * 2); if attempt == 2: raise e];
    [Some tid] when the loop ends by [break]. *)
Fixpoint post_attempts (text : json) (parent : option pystr) (attempts : list nat)
    : M (option pystr) :=
  match attempts with
  | [] => ret None
  | attempt :: rest =>
      try_except
        (tid <- create_tweet text (truthy_id parent) ;; ret (Some tid))
        (fun e => sleep (2 + attempt * 2) ;;;
                  if Nat.eqb attempt 2 then raise e
                  else post_attempts text parent rest)
  end.

Fixpoint post_loop (tweets : list json) (first_id parent_id : option pystr)
    : M (option pystr) :=
  match tweets with
  | [] => ret first_id
  | text :: rest =>
      r <- post_attempts text parent_id [0; 1; 2] ;;
      let first_id' := match r, first_id with
                       | Some tid, None => Some tid
                       | _, _ => first_id
                       end in
      let parent_id' := match r with Some tid => Some tid | None => parent_id end in
      sleep 2 ;;; post_loop rest first_id' parent_id'
  end.

Definition post_thread (tweets : list json) : M (option pystr) :=
  post_loop tweets None None.

(* ------------------------------------------------------------------ *)
(** ** [main] *)

(** [call_hf_inference(prompt)] is an HTTP request: the run takes its outcome
    as an input, [Some raw] for the text it returns and [None] when it raises
    (non-200 status, a response of an unexpected shape, a network error). *)
Definition call_hf_inference (hf : option pystr) : M pystr :=
  match hf with
  | Some raw => ret raw
  | None => raise HFError
  end.

Definition EVENING : pystr := s "0 20 * * *".

(** Lines 198-216 of [main]: the thread and its source tag.  The prompt only
    feeds [call_hf_inference]; the topic draw is kept. *)
Definition select_thread (run_mode : pystr) (fallback_threads : list (list json))
    (hf : option pystr) : M (list json * pystr) :=
  if str_eqb run_mode EVENING then
    tweets <- pick_fallback fallback_threads ;; ret (tweets, s "fallback")
  else
    _topic <- random_choice TOPICS ;;
    try_except
      (raw <- call_hf_inference hf ;;
       tweets <- parse_thread_list raw ;;
       ret (map JStr tweets, s "ai"))
      (fun _ => tweets <- pick_fallback fallback_threads ;;
                ret (tweets, s "fallback")).

Definition log_entry (time source : pystr) (tweets : list json)
    (first_id : option pystr) : json :=
  JObj [ (s "time", JStr time);
         (s "source", JStr source);
         (s "tweets", JArr tweets);
         (s "first_tweet_id", match first_id with
                              | Some tid => JStr tid
                              | None => JNull
                              end) ].

(** [run_mode_env] is [os.getenv("RUN_MODE")]; [utcnow] is
    [datetime.utcnow().isoformat()]. *)
Definition main (run_mode_env : option pystr) (hf : option pystr) (utcnow : pystr)
    : M unit :=
  let run_mode := strip (match run_mode_env with Some v => v | None => [] end) in
  fallback_threads <- load_fallback_threads "fallback.json" ;;
  sel <- select_thread run_mode fallback_threads hf ;;
  let '(tweets, source) := sel in
  first_id <- post_thread tweets ;;
  save_log (log_entry (utcnow ++ s "Z") source tweets first_id).

(** A History Record with the fields [main] writes. *)
Record log_record : Type := mkRecord {
  rec_time : pystr;
  rec_source : pystr;
  rec_tweets : list pystr;
  rec_first_tweet_id : option pystr
}.

Definition record_json (r : log_record) : json :=
  log_entry (rec_time r) (rec_source r) (map JStr (rec_tweets r))
            (rec_first_tweet_id r).

(** Reading a History Record back from its JSON form. *)
Fixpoint strings_of (l : list json) : option (list pystr) :=
  match l with
  | [] => Some []
  | JStr x :: l' => match strings_of l' with
                    | Some xs => Some (x :: xs)
                    | None => None
                    end
  | _ :: _ => None
  end.

Definition record_of_json (v : json) : option log_record :=
  match v with
  | JObj kvs =>
      match obj_lookup (s "time") kvs, obj_lookup (s "source") kvs,
            obj_lookup (s "tweets") kvs, obj_lookup (s "first_tweet_id") kvs with
      | Some (JStr t), Some (JStr src), Some (JArr tw), Some fid =>
          match strings_of tw, fid with
          | Some segs, JNull => Some (mkRecord t src segs None)
          | Some segs, JStr tid => Some (mkRecord t src segs (Some tid))
          | _, _ => None
          end
      | _, _, _, _ => None
      end
  | _ => None
  end.

(** Appending records one after the other with [save_log]. *)
Fixpoint save_all (rs : list log_record) : M unit :=
  match rs with
  | [] => ret tt
  | r :: rs' => save_log (record_json r) ;;; save_all rs'
  end.

(* ------------------------------------------------------------------ *)
(** ** Sample inputs *)

Definition empty_world : world := mkWorld (fun _ => None) [] [] [] [].

Definition xs (n : nat) : pystr := repeat 120%N n.   (* "x" * n *)

Example clamp_short : clamp_tweet (s "  hi  ") = s "hi".
Proof. reflexivity. Qed.

Example clamp_long : length (clamp_tweet (xs 300)) = 280.
Proof. vm_compute. reflexivity. Qed.

Example parse_sample :
  fst (parse_thread_list (s "1. Tip one
2. Tip two
3. Tip three
4. Tip four
5. Tip five") (set_rng empty_world [0; 1; 0; 0; 0]))
  = Ok [s "Tip one"; s "Tip two"; s "Tip three"; s "Tip four";
        s "Tip five " ++ CTA ++ s " #CyberSecurity #InfoSec #DataPrivacy"].
Proof. vm_compute. reflexivity. Qed.

(* ------------------------------------------------------------------ *)
(** ** Lemmas on strings *)

Lemma lstrip_length (x : pystr) : length (lstrip x) <= length x.
Proof.
  induction x as [|c x IH]; simpl; [lia|].
  destruct (isspace c); simpl; lia.
Qed.

Lemma strip_length (x : pystr) : length (strip x) <= length x.
Proof.
  unfold strip, rstrip. rewrite length_rev.
  pose proof (lstrip_length (rev (lstrip x))) as H.
  rewrite length_rev in H. pose proof (lstrip_length x). lia.
Qed.

Lemma lstrip_app_nonspace (x : pystr) (c : N) :
  isspace c = false -> lstrip (x ++ [c]) = lstrip x ++ [c].
Proof.
  intros Hc. induction x as [|d x IH]; simpl.
  - rewrite Hc. reflexivity.
  - destruct (isspace d); [exact IH | reflexivity].
Qed.

Lemma strip_app_nonspace (x : pystr) (c : N) :
  isspace c = false -> strip (x ++ [c]) = lstrip x ++ [c].
Proof.
  intros Hc. unfold strip, rstrip.
  rewrite (lstrip_app_nonspace x c Hc), rev_app_distr. simpl.
  rewrite Hc. simpl. rewrite rev_involutive. reflexivity.
Qed.

Lemma slice_to_length (k : Z) (x : pystr) : length (slice_to k x) <= length x.
Proof. unfold slice_to. destruct (k <? 0)%Z; rewrite length_firstn; lia. Qed.

(** [rfind_from] finds the last occurrence, offset by the start index. *)
Lemma rfind_from_spec (c : N) (x : pystr) (i f : Z) :
  (rfind_from c x i f = f /\ ~ In c x) \/
  (exists k, rfind_from c x i f = (i + Z.of_nat k)%Z /\ nth_error x k = Some c /\
             forall j, k < j -> nth_error x j <> Some c).
Proof.
  revert i f. induction x as [|d x IH]; intros i f; simpl.
  - left. split; [reflexivity | tauto].
  - destruct (IH (i + 1)%Z (if (c =? d)%N then i else f)) as [[H1 H2] | [k [H1 [H2 H3]]]].
    + rewrite H1. destruct (N.eqb_spec c d) as [->|Hcd].
      * right. exists 0. split; [lia|]. split; [reflexivity|].
        intros [|j] Hj; [lia|]. simpl. intros Hn. apply H2.
        eapply nth_error_In; exact Hn.
      * left. split; [reflexivity|]. intros [Heq|Hin]; [congruence | tauto].
    + right. exists (S k). split; [rewrite H1; lia|]. split; [exact H2|].
      intros [|j] Hj; [lia|]. simpl. apply H3. lia.
Qed.

Lemma last_index_unique (x : pystr) (c : N) (i k : nat) :
  nth_error x i = Some c -> (forall j, i < j -> nth_error x j <> Some c) ->
  nth_error x k = Some c -> (forall j, k < j -> nth_error x j <> Some c) ->
  i = k.
Proof.
  intros Hi Hi' Hk Hk'.
  destruct (Nat.lt_trichotomy i k) as [H|[H|H]]; [|exact H|].
  - exfalso. exact (Hi' k H Hk).
  - exfalso. exact (Hk' i H Hi).
Qed.

Lemma existsb_eqb_In (c : N) (x : pystr) : existsb (N.eqb c) x = true <-> In c x.
Proof.
  rewrite existsb_exists. split.
  - intros [d [Hd Heq]]. apply N.eqb_eq in Heq. subst. exact Hd.
  - intros H. exists c. split; [exact H | apply N.eqb_refl].
Qed.

(* ------------------------------------------------------------------ *)
(** ** [clamp_tweet] *)

Lemma clamp_tweet_length (text : pystr) : length (clamp_tweet text) <= MAX_TWEET_LEN.
Proof.
  unfold clamp_tweet.
  destruct (Nat.leb_spec (length text) MAX_TWEET_LEN) as [H|H].
  - pose proof (strip_length text). lia.
  - rewrite strip_app_nonspace by reflexivity.
    set (window := firstn (MAX_TWEET_LEN - 1) text).
    assert (Hw : length window <= MAX_TWEET_LEN - 1)
      by (unfold window; rewrite length_firstn; lia).
    rewrite length_app. change (length [ELLIPSIS]) with 1.
    destruct (existsb (N.eqb SPACE) window).
    + pose proof (slice_to_length (rfind SPACE window) window).
      pose proof (lstrip_length (slice_to (rfind SPACE window) window)).
      unfold MAX_TWEET_LEN in *. lia.
    + pose proof (lstrip_length window).
      unfold MAX_TWEET_LEN in *. lia.
Qed.

Lemma clamp_tweet_short (text : pystr) :
  length text <= MAX_TWEET_LEN -> clamp_tweet text = strip text.
Proof.
  intros H. unfold clamp_tweet. apply Nat.leb_le in H. rewrite H. reflexivity.
Qed.

(** The text used in the counterexample of C3: two leading spaces, a word of
    100 characters, a space and a word of 200 characters. *)
Definition text_c3 : pystr := s "  " ++ xs 100 ++ s " " ++ xs 200.

(** C3: [clamp_tweet] returns at most 280 characters; a text that fits is
    returned stripped; a longer text is cut to 279 characters, backed off to
    its last space when the cut has one, given a final ellipsis, and the
    leading whitespace of the result is stripped. *)
Theorem clamp_tweet_contract (text : pystr) :
  length (clamp_tweet text) <= MAX_TWEET_LEN /\
  (length text <= MAX_TWEET_LEN -> clamp_tweet text = strip text) /\
  (MAX_TWEET_LEN < length text ->
     (~ In SPACE (firstn (MAX_TWEET_LEN - 1) text) ->
        clamp_tweet text = lstrip (firstn (MAX_TWEET_LEN - 1) text) ++ [ELLIPSIS]) /\
     (forall i, nth_error (firstn (MAX_TWEET_LEN - 1) text) i = Some SPACE ->
        (forall j, i < j -> nth_error (firstn (MAX_TWEET_LEN - 1) text) j <> Some SPACE) ->
        clamp_tweet text =
          lstrip (firstn i (firstn (MAX_TWEET_LEN - 1) text)) ++ [ELLIPSIS])).
Proof.
  split; [apply clamp_tweet_length|].
  split; [apply clamp_tweet_short|].
  intros Hlong.
  assert (Hc : clamp_tweet text =
    strip ((if existsb (N.eqb SPACE) (firstn (MAX_TWEET_LEN - 1) text)
            then slice_to (rfind SPACE (firstn (MAX_TWEET_LEN - 1) text))
                          (firstn (MAX_TWEET_LEN - 1) text)
            else firstn (MAX_TWEET_LEN - 1) text) ++ [ELLIPSIS])).
  { unfold clamp_tweet. apply Nat.leb_gt in Hlong. rewrite Hlong. reflexivity. }
  rewrite Hc. clear Hc.
  set (window := firstn (MAX_TWEET_LEN - 1) text).
  split.
  - intros Hno. destruct (existsb (N.eqb SPACE) window) eqn:He.
    + apply existsb_eqb_In in He. contradiction.
    + apply strip_app_nonspace. reflexivity.
  - intros i Hi Hlast.
    assert (He : existsb (N.eqb SPACE) window = true).
    { apply existsb_eqb_In. eapply nth_error_In. exact Hi. }
    rewrite He, strip_app_nonspace by reflexivity. f_equal. f_equal.
    unfold rfind.
    destruct (rfind_from_spec SPACE window 0 (-1)) as [[_ Hn] | [k [Hk [Hk1 Hk2]]]].
    + exfalso. apply Hn. eapply nth_error_In. exact Hi.
    + rewrite Hk. simpl.
      rewrite (last_index_unique window SPACE i k Hi Hlast Hk1 Hk2).
      unfold slice_to. destruct (Z.ltb_spec (Z.of_nat k) 0); [lia|].
      rewrite Nat2Z.id. reflexivity.
Qed.

(** C3 (counterexample): on [text_c3] the cut backed off to the last space is
    ["  " + "x" * 100], but [clamp_tweet] returns ["x" * 100 + "…"]: the final
    [strip] also drops the leading spaces, so the result is not the cut with
    an ellipsis appended. *)
Lemma clamp_tweet_drops_leading_space :
  slice_to (rfind SPACE (firstn (MAX_TWEET_LEN - 1) text_c3))
           (firstn (MAX_TWEET_LEN - 1) text_c3) = s "  " ++ xs 100 /\
  clamp_tweet text_c3 = xs 100 ++ [ELLIPSIS] /\
  str_eqb (clamp_tweet text_c3) ((s "  " ++ xs 100) ++ [ELLIPSIS]) = false.
Proof. vm_compute. split; [reflexivity | split; reflexivity]. Qed.

(* ------------------------------------------------------------------ *)
(** ** Random draws never fail on the program's lists *)

Lemma rand_below_spec (n : nat) (w : world) :
  0 < n -> exists i w', rand_below n w = (Ok i, w') /\ i < n /\ files w' = files w.
Proof.
  intros Hn. unfold rand_below. destruct (rng w) as [|r rs].
  - exists 0, w. repeat split; lia.
  - exists (r mod n), (set_rng w rs). split; [reflexivity|]. split; [|reflexivity].
    apply Nat.mod_upper_bound. lia.
Qed.

Lemma random_choice_spec {A} (l : list A) (w : world) :
  l <> [] -> exists x w', random_choice l w = (Ok x, w') /\ In x l /\ files w' = files w.
Proof.
  intros Hl. destruct l as [|d l']; [congruence|].
  destruct (rand_below_spec (length (d :: l')) w) as [i [w' [Hr [Hi Hf]]]]; [simpl; lia|].
  exists (nth i (d :: l') d), w'. unfold random_choice, bind. rewrite Hr.
  split; [reflexivity|]. split; [apply nth_In; exact Hi | exact Hf].
Qed.

Lemma remove_nth_length {A} (i : nat) (l : list A) :
  i < length l -> length (remove_nth i l) = length l - 1.
Proof.
  revert i. induction l as [|x l IH]; intros [|i] Hi; simpl in *; try lia.
  rewrite IH by lia. lia.
Qed.

Lemma random_sample_ok {A} (l : list A) (k : nat) (w : world) :
  k <= length l -> exists r w', random_sample l k w = (Ok r, w').
Proof.
  revert l w. induction k as [|k IH]; intros l w Hk; simpl.
  - exists [], w. reflexivity.
  - destruct l as [|d l']; [simpl in Hk; lia|].
    destruct (rand_below_spec (length (d :: l')) w) as [i [w1 [Hr [Hi _]]]]; [simpl; lia|].
    unfold bind. rewrite Hr.
    destruct (IH (remove_nth i (d :: l')) w1) as [r [w2 Hs]].
    { rewrite remove_nth_length by exact Hi. simpl in *. lia. }
    rewrite Hs. eexists. eexists. reflexivity.
Qed.

Lemma pick_hashtags_ok (w : world) : exists ht w', pick_hashtags w = (Ok ht, w').
Proof.
  unfold pick_hashtags.
  destruct (random_choice_spec HASHTAG_BUCKETS w) as [b [w1 [H1 [Hb _]]]];
    [discriminate|].
  unfold bind at 1. rewrite H1.
  destruct (random_choice_spec [2; 3] w1) as [k [w2 [H2 [Hk _]]]]; [discriminate|].
  unfold bind at 1. rewrite H2.
  destruct (random_sample_ok b k w2) as [r [w3 H3]].
  { simpl in Hb, Hk.
    destruct Hb as [<-|[<-|[<-|[]]]]; destruct Hk as [<-|[<-|[]]]; simpl; lia. }
  unfold bind. rewrite H3. eexists. eexists. reflexivity.
Qed.

(* ------------------------------------------------------------------ *)
(** ** The five segments *)

Lemma set_last_length (l : list pystr) (x : pystr) :
  l <> [] -> length (set_last l x) = length l.
Proof.
  intros Hl. unfold set_last.
  rewrite (app_removelast_last [] Hl) at 2. rewrite !length_app. reflexivity.
Qed.

Lemma set_last_last (l : list pystr) (x : pystr) : last (set_last l x) [] = x.
Proof. unfold set_last. apply last_last. Qed.

Lemma set_last_nth (l : list pystr) (x : pystr) (i : nat) :
  S i < length l -> nth_error (set_last l x) i = nth_error l i.
Proof.
  intros Hi. assert (Hl : l <> []) by (intros ->; simpl in Hi; lia).
  unfold set_last. pose proof (app_removelast_last [] Hl) as E.
  assert (Hr : i < length (removelast l)).
  { rewrite E in Hi. rewrite length_app in Hi. simpl in Hi. lia. }
  rewrite nth_error_app1 by exact Hr.
  rewrite E at 2. rewrite nth_error_app1 by exact Hr. reflexivity.
Qed.

Lemma set_last_Forall (P : pystr -> Prop) (l : list pystr) (x : pystr) :
  Forall P l -> P x -> Forall P (set_last l x).
Proof.
  intros Hl Hx. unfold set_last. apply Forall_app. split; [|constructor; auto].
  apply Forall_forall. intros y Hy. rewrite Forall_forall in Hl.
  apply Hl. destruct l as [|a l]; [contradiction|].
  rewrite (app_removelast_last [] (l := a :: l)) by discriminate.
  apply in_or_app. left. exact Hy.
Qed.

Lemma in_firstn {A} (n : nat) (l : list A) (x : A) : In x (firstn n l) -> In x l.
Proof. intros H. rewrite <- (firstn_skipn n l). apply in_or_app. left. exact H. Qed.

Lemma thread_segments_length (raw : pystr) : length (thread_segments raw) = 5.
Proof.
  unfold thread_segments. rewrite length_app, repeat_length, length_firstn. lia.
Qed.

Lemma thread_segments_bounded (raw : pystr) :
  Forall (fun t => length t <= MAX_TWEET_LEN) (thread_segments raw).
Proof.
  unfold thread_segments. apply Forall_app. split.
  - apply Forall_forall. intros t Ht. apply in_firstn, in_map_iff in Ht.
    destruct Ht as [ln [<- _]]. apply clamp_tweet_length.
  - apply Forall_forall. intros t Ht. apply repeat_spec in Ht. subst t.
    change (length FILLER) with 50. unfold MAX_TWEET_LEN. lia.
Qed.

Lemma thread_segments_nth (raw : pystr) (i : nat) :
  i < 5 ->
  nth_error (thread_segments raw) i =
    if i <? length (nonempty_lines raw)
    then Some (clamp_tweet (strip_ordinal (nth i (nonempty_lines raw) [])))
    else Some FILLER.
Proof.
  intros Hi. unfold thread_segments.
  set (lines := nonempty_lines raw).
  destruct (Nat.ltb_spec i (length lines)) as [Hl|Hl].
  - rewrite nth_error_app1 by (rewrite length_firstn, length_map; lia).
    rewrite nth_error_firstn. destruct (Nat.ltb_spec i 5); [|lia].
    rewrite nth_error_map. rewrite (nth_error_nth' lines [] Hl). reflexivity.
  - rewrite nth_error_app2 by (rewrite length_firstn, length_map; lia).
    rewrite length_firstn, length_map.
    apply nth_error_repeat. lia.
Qed.

(** Lines 162-165 of [parse_thread_list]: the last segment with the CTA and
    the hashtags, before the final clamp. *)
Definition last_augmented (last0 ht : pystr) : pystr :=
  let last1 := if contains CTA last0 then last0
               else clamp_tweet (last0 ++ [SPACE] ++ CTA) in
  if length last1 + 1 + length ht <=? MAX_TWEET_LEN
  then last1 ++ [SPACE] ++ ht else last1.

Lemma parse_thread_list_eq (raw : pystr) (w : world) :
  exists ht w', parse_thread_list raw w =
    (Ok (set_last (thread_segments raw)
           (clamp_tweet (last_augmented (last (thread_segments raw) []) ht))), w').
Proof.
  destruct (pick_hashtags_ok w) as [ht [w' H]]. exists ht, w'.
  cbv [parse_thread_list bind]. rewrite H. reflexivity.
Qed.

Lemma last_in (l : list pystr) : l <> [] -> In (last l []) l.
Proof.
  intros Hl. rewrite (app_removelast_last [] Hl) at 2.
  apply in_or_app. right. left. reflexivity.
Qed.

Lemma thread_segments_last_bounded (raw : pystr) :
  length (last (thread_segments raw) []) <= MAX_TWEET_LEN.
Proof.
  pose proof (thread_segments_bounded raw) as H. rewrite Forall_forall in H.
  apply H, last_in. intros E. pose proof (thread_segments_length raw) as L.
  rewrite E in L. discriminate.
Qed.

(* ------------------------------------------------------------------ *)
(** ** Substrings *)

Lemma starts_with_iff (pre x : pystr) :
  starts_with pre x = true <-> exists q, x = pre ++ q.
Proof.
  revert x. induction pre as [|c pre IH]; intros x; simpl.
  - split; [intros _; exists x; reflexivity | reflexivity].
  - destruct x as [|d x].
    + split; [discriminate | intros [q Hq]; discriminate].
    + rewrite andb_true_iff, N.eqb_eq, IH. split.
      * intros [-> [q ->]]. exists q. reflexivity.
      * intros [q Hq]. injection Hq as -> ->. split; [reflexivity | exists q; reflexivity].
Qed.

Lemma contains_iff (sub x : pystr) :
  contains sub x = true <-> exists p q, x = p ++ sub ++ q.
Proof.
  induction x as [|c x IH]; simpl; rewrite orb_true_iff, starts_with_iff.
  - split.
    + intros [[q Hq] | H]; [|discriminate]. exists [], q. exact Hq.
    + intros [p [q Hpq]]. left. exists q.
      destruct p; [exact Hpq | discriminate].
  - rewrite IH. split.
    + intros [[q Hq] | [p [q Hpq]]].
      * exists [], q. exact Hq.
      * exists (c :: p), q. rewrite Hpq. reflexivity.
    + intros [[|d p] [q Hpq]].
      * left. exists q. exact Hpq.
      * right. injection Hpq as -> Hx. exists p, q. exact Hx.
Qed.

Lemma contains_app_r (sub x y : pystr) :
  contains sub x = true -> contains sub (x ++ y) = true.
Proof.
  rewrite !contains_iff. intros [p [q ->]]. exists p, (q ++ y).
  rewrite <- !app_assoc. reflexivity.
Qed.

Lemma contains_mid (sub p q : pystr) : contains sub (p ++ sub ++ q) = true.
Proof. apply contains_iff. exists p, q. reflexivity. Qed.

Lemma contains_rev (sub x : pystr) :
  contains sub x = true -> contains (rev sub) (rev x) = true.
Proof.
  rewrite !contains_iff. intros [p [q ->]]. exists (rev q), (rev p).
  rewrite !rev_app_distr, <- !app_assoc. reflexivity.
Qed.

Lemma contains_lstrip (c : N) (sub x : pystr) :
  isspace c = false -> contains (c :: sub) x = true ->
  contains (c :: sub) (lstrip x) = true.
Proof.
  intros Hc. induction x as [|d x IH]; simpl; [tauto|].
  destruct (isspace d) eqn:Hd; [|tauto].
  intros H. apply IH. apply orb_true_iff in H. destruct H as [H|H]; [|exact H].
  apply andb_true_iff in H. destruct H as [H _]. apply N.eqb_eq in H.
  subst. congruence.
Qed.

Lemma contains_strip (c d : N) (sub sub' x : pystr) :
  isspace c = false -> isspace d = false ->
  rev (c :: sub) = d :: sub' ->
  contains (c :: sub) x = true -> contains (c :: sub) (strip x) = true.
Proof.
  intros Hc Hd Hr H. unfold strip, rstrip.
  apply (contains_lstrip c sub x Hc) in H. apply contains_rev in H.
  rewrite Hr in H. apply (contains_lstrip d sub') in H; [|exact Hd].
  apply contains_rev in H. rewrite <- Hr, !rev_involutive in H. exact H.
Qed.

Lemma CTA_strip (x : pystr) : contains CTA x = true -> contains CTA (strip x) = true.
Proof.
  apply (contains_strip 87%N 46%N (tl CTA) (tl (rev CTA))); reflexivity.
Qed.

(* ------------------------------------------------------------------ *)
(** ** The composer: C1, C2, C6 *)

(** C1: for every generated text and every outcome of the random draws,
    [parse_thread_list] returns exactly five segments, each of at most 280
    characters; segments [0..3] come from the first non-empty lines and are
    the filler segment past the last line. *)
Theorem parse_thread_list_five_segments (raw : pystr) (w : world) :
  exists ts w', parse_thread_list raw w = (Ok ts, w') /\
    length ts = 5 /\
    Forall (fun t => length t <= MAX_TWEET_LEN) ts /\
    (forall i, i < 4 -> i < length (nonempty_lines raw) ->
       nth_error ts i = Some (clamp_tweet (strip_ordinal (nth i (nonempty_lines raw) [])))) /\
    (forall i, i < 4 -> length (nonempty_lines raw) <= i -> nth_error ts i = Some FILLER).
Proof.
  destruct (parse_thread_list_eq raw w) as [ht [w' H]].
  eexists. exists w'. split; [exact H|].
  assert (Hne : thread_segments raw <> []).
  { intros E. pose proof (thread_segments_length raw) as L. rewrite E in L. discriminate. }
  split; [rewrite set_last_length by exact Hne; apply thread_segments_length|].
  split; [apply set_last_Forall; [apply thread_segments_bounded | apply clamp_tweet_length]|].
  split.
  - intros i Hi Hl. rewrite set_last_nth by (rewrite thread_segments_length; lia).
    rewrite thread_segments_nth by lia.
    destruct (Nat.ltb_spec i (length (nonempty_lines raw))); [reflexivity | lia].
  - intros i Hi Hl. rewrite set_last_nth by (rewrite thread_segments_length; lia).
    rewrite thread_segments_nth by lia.
    destruct (Nat.ltb_spec i (length (nonempty_lines raw))); [lia | reflexivity].
Qed.

(** C2 (amended): the final segment contains the call-to-action whenever the
    fifth segment before augmentation already contains it or leaves room for
    it (its length plus one plus the CTA's length is at most 280), whatever
    hashtags are drawn. *)
Theorem parse_thread_list_cta (raw : pystr) (w : world)
  (Hroom : contains CTA (last (thread_segments raw) []) = true \/
           length (last (thread_segments raw) []) + 1 + length CTA <= MAX_TWEET_LEN) :
  exists ts w', parse_thread_list raw w = (Ok ts, w') /\ contains CTA (last ts []) = true.
Proof.
  destruct (parse_thread_list_eq raw w) as [ht [w' H]].
  eexists. exists w'. split; [exact H|]. rewrite set_last_last.
  set (last0 := last (thread_segments raw) []) in *.
  pose proof (thread_segments_last_bounded raw) as B0. fold last0 in B0.
  set (last1 := if contains CTA last0 then last0
                else clamp_tweet (last0 ++ [SPACE] ++ CTA)).
  assert (H1 : contains CTA last1 = true /\ length last1 <= MAX_TWEET_LEN).
  { unfold last1. destruct (contains CTA last0) eqn:Hc; [split; [exact Hc | exact B0]|].
    destruct Hroom as [Hroom|Hroom]; [discriminate|].
    split; [|apply clamp_tweet_length].
    rewrite clamp_tweet_short.
    - apply CTA_strip, contains_iff. exists (last0 ++ [SPACE]), [].
      rewrite app_nil_r, <- app_assoc. reflexivity.
    - rewrite !length_app. change (length [SPACE]) with 1. lia. }
  destruct H1 as [C1 L1].
  assert (H2 : contains CTA (last_augmented last0 ht) = true /\
               length (last_augmented last0 ht) <= MAX_TWEET_LEN).
  { unfold last_augmented. fold last1.
    destruct (Nat.leb_spec (length last1 + 1 + length ht) MAX_TWEET_LEN) as [Hl|Hl].
    - split; [apply contains_app_r; exact C1|].
      rewrite !length_app. change (length [SPACE]) with 1. lia.
    - split; [exact C1 | exact L1]. }
  destruct H2 as [C2 L2].
  rewrite clamp_tweet_short by exact L2. apply CTA_strip. exact C2.
Qed.

(** A thread with fewer than five lines: the fifth segment is the filler. *)
Lemma parse_thread_list_cta_witness :
  (contains CTA (last (thread_segments (s "Tip one")) []) = true \/
   length (last (thread_segments (s "Tip one")) []) + 1 + length CTA <= MAX_TWEET_LEN) /\
  exists ts w', parse_thread_list (s "Tip one") empty_world = (Ok ts, w') /\
                contains CTA (last ts []) = true.
Proof.
  assert (H : contains CTA (last (thread_segments (s "Tip one")) []) = true \/
              length (last (thread_segments (s "Tip one")) []) + 1 + length CTA
                <= MAX_TWEET_LEN).
  { right. vm_compute. lia. }
  split; [exact H | exact (parse_thread_list_cta (s "Tip one") empty_world H)].
Defined.

(** Four short lines and a fifth line of 250 characters without spaces. *)
Definition raw_c2 : pystr := s "a
b
c
d
" ++ xs 250.

(** C2 (counterexample): on [raw_c2] the CTA is appended and then cut by the
    clamp at its last space: the final segment has 274 characters and does not
    contain the CTA. *)
Lemma parse_thread_list_cta_cut :
  fst (parse_thread_list raw_c2 empty_world) =
    Ok [s "a"; s "b"; s "c"; s "d"; xs 250 ++ s " Was this useful? Like," ++ [ELLIPSIS]] /\
  contains CTA (xs 250 ++ s " Was this useful? Like," ++ [ELLIPSIS]) = false /\
  length (xs 250 ++ s " Was this useful? Like," ++ [ELLIPSIS]) = 274.
Proof. vm_compute. split; [reflexivity | split; reflexivity]. Qed.

(** C6 (amended): each of the first five non-empty trimmed lines becomes its
    segment by removing the leading run of characters from ["12345). -"] only
    when the line's first character is a digit ([str.isdigit]); a line that
    starts with any other character is kept whole; then the result is clamped.
    The first four segments are returned as built; the fifth is augmented. *)
Theorem parse_thread_list_ordinal_marker (raw : pystr) (w : world) :
  exists ts w', parse_thread_list raw w = (Ok ts, w') /\
    firstn 4 ts = firstn 4 (thread_segments raw) /\
    (forall i c rest, i < 5 -> nth_error (nonempty_lines raw) i = Some (c :: rest) ->
       nth_error (thread_segments raw) i =
         Some (clamp_tweet (if isdigit c then lstrip_chars (s "12345). -") (c :: rest)
                            else c :: rest))).
Proof.
  destruct (parse_thread_list_eq raw w) as [ht [w' H]].
  eexists. exists w'. split; [exact H|]. split.
  - apply nth_error_ext. intros i. rewrite !nth_error_firstn.
    destruct (Nat.ltb_spec i 4); [|reflexivity].
    apply set_last_nth. rewrite thread_segments_length. lia.
  - intros i c rest Hi Hn. rewrite thread_segments_nth by exact Hi.
    assert (Hl : i < length (nonempty_lines raw))
      by (apply nth_error_Some; rewrite Hn; discriminate).
    apply Nat.ltb_lt in Hl. rewrite Hl.
    rewrite (nth_error_nth _ _ [] Hn). reflexivity.
Qed.

(** A single generated line opening with a dash bullet. *)
Definition raw_c6 : pystr := s "- Tip one".

(** C6 (counterexample): the line ["- Tip one"] does not start with a digit,
    so its leading ["- "] is kept, although it is a run of marker characters
    whose removal gives ["Tip one"]. *)
Lemma parse_thread_list_keeps_dash :
  nonempty_lines raw_c6 = [s "- Tip one"] /\
  lstrip_chars (s "12345). -") (s "- Tip one") = s "Tip one" /\
  exists ts w', parse_thread_list raw_c6 empty_world = (Ok ts, w') /\
                nth_error ts 0 = Some (s "- Tip one").
Proof.
  split; [vm_compute; reflexivity|]. split; [vm_compute; reflexivity|].
  eexists. eexists. split; [vm_compute; reflexivity | vm_compute; reflexivity].
Qed.

(* ------------------------------------------------------------------ *)
(** ** The fallback pool and the history log: C7, C8, C9 *)

Lemma JArr_map_inj (ts ts' : list (list json)) :
  map JArr ts = map JArr ts' -> ts = ts'.
Proof.
  revert ts'. induction ts as [|t ts IH]; intros [|t' ts'] H; try discriminate.
  - reflexivity.
  - simpl in H. injection H as -> E. f_equal. apply IH. exact E.
Qed.

Lemma as_list_of_lists_arr (l : list json) (ts : list (list json)) :
  as_list_of_lists (JArr l) = Some ts <-> l = map JArr ts.
Proof.
  revert ts. induction l as [|t l IH]; intros ts.
  - simpl. split.
    + intros H. injection H as <-. reflexivity.
    + intros H. destruct ts; [reflexivity | discriminate].
  - change (as_list_of_lists (JArr (t :: l))) with
      (match t, as_list_of_lists (JArr l) with
       | JArr x, Some ls => Some (x :: ls)
       | _, _ => None
       end).
    destruct t as [| | | |x|];
      try (split; [discriminate | intros H; destruct ts; discriminate]).
    destruct (as_list_of_lists (JArr l)) as [ls|] eqn:Hf.
    + assert (Hl : l = map JArr ls) by (apply IH; reflexivity).
      split.
      * intros H. injection H as <-. rewrite Hl. reflexivity.
      * intros H. destruct ts as [|y ts']; [discriminate|].
        injection H as -> E. rewrite Hl in E. apply JArr_map_inj in E. subst. reflexivity.
    + split; [discriminate|]. intros H. destruct ts as [|y ts']; [discriminate|].
      injection H as -> E. apply IH in E. discriminate.
Qed.

Lemma as_list_of_lists_spec (v : json) (ts : list (list json)) :
  as_list_of_lists v = Some ts <-> v = JArr (map JArr ts).
Proof.
  destruct v as [| | | |l|];
    try (split; [discriminate | intros H; discriminate H]).
  rewrite as_list_of_lists_arr. split; [intros ->; reflexivity | intros H; injection H as H; exact H].
Qed.

Lemma load_fallback_threads_keeps_world (filename : string) (w : world) :
  exists pool, load_fallback_threads filename w = (Ok pool, w).
Proof.
  unfold load_fallback_threads, try_except, bind, json_load_file.
  destruct (files w filename) as [[| |v]|]; [eexists; reflexivity|eexists; reflexivity| |eexists; reflexivity].
  destruct (as_list_of_lists v); eexists; reflexivity.
Qed.

(** C7: [load_fallback_threads] never raises and leaves the world unchanged:
    when the file holds a list of lists, that value is returned unchanged
    (whatever the elements of the inner lists are); in every other case --
    missing file, unreadable or non-JSON content, any other shape -- it
    returns the one-thread default pool, whose thread has five segments. *)
Theorem load_fallback_threads_total (filename : string) (w : world) :
  exists pool, load_fallback_threads filename w = (Ok pool, w) /\
    (forall ts, files w filename = Some (Json (JArr (map JArr ts))) -> pool = ts) /\
    ((forall ts, files w filename <> Some (Json (JArr (map JArr ts)))) ->
       pool = DEFAULT_POOL) /\
    map (@length json) DEFAULT_POOL = [5].
Proof.
  unfold load_fallback_threads, try_except, bind, json_load_file.
  destruct (files w filename) as [[| |v]|] eqn:Hf.
  - exists DEFAULT_POOL. split; [reflexivity|]. split; [|split; reflexivity].
    intros ts H. discriminate H.
  - exists DEFAULT_POOL. split; [reflexivity|]. split; [|split; reflexivity].
    intros ts H. discriminate H.
  - destruct (as_list_of_lists v) as [ts|] eqn:Hv.
    + exists ts. split; [reflexivity|]. apply as_list_of_lists_spec in Hv. subst v.
      split; [|split; [|reflexivity]].
      * intros ts' H. injection H as H. apply JArr_map_inj in H. congruence.
      * intros H. exfalso. exact (H ts eq_refl).
    + exists DEFAULT_POOL. split; [reflexivity|]. split; [|split; reflexivity].
      intros ts H. injection H as H. subst v.
      assert (E : as_list_of_lists (JArr (map JArr ts)) = Some ts)
        by (apply as_list_of_lists_spec; reflexivity).
      congruence.
  - exists DEFAULT_POOL. split; [reflexivity|]. split; [|split; reflexivity].
    intros ts H. discriminate H.
Qed.

Lemma load_log_eq (w : world) :
  load_log w = (Ok (match files w LOG_FILE with
                    | Some (Json v) => v
                    | _ => JArr []
                    end), w).
Proof.
  cbv [load_log os_path_exists bind try_except json_load_file ret negb].
  destruct (files w LOG_FILE) as [f|] eqn:E; [|reflexivity].
  unfold LOG_FILE in *. rewrite E. destruct f; reflexivity.
Qed.

(** A history file holding the JSON object [{}]. *)
Definition world_c8 : world :=
  set_files empty_world (fun p => if String.eqb p LOG_FILE then Some (Json (JObj []))
                                  else None).

(** C8 (code bug): a history file holding [{}] parses, and [load_log]
    returns that dict as it is, not a sequence of History Records (nor the
    empty sequence), although it is annotated [-> List[Dict[str, Any]]]. *)
Lemma load_log_returns_dict : fst (load_log world_c8) = Ok (JObj []).
Proof. reflexivity. Qed.

Lemma str_eqb_refl (x : pystr) : str_eqb x x = true.
Proof. induction x as [|c x IH]; simpl; [reflexivity|]. rewrite N.eqb_refl. exact IH. Qed.

Lemma str_eqb_eq (x y : pystr) : str_eqb x y = true <-> x = y.
Proof.
  split; [|intros ->; apply str_eqb_refl].
  revert y. induction x as [|c x IH]; intros [|d y]; simpl; try discriminate; [reflexivity|].
  rewrite andb_true_iff, N.eqb_eq. intros [-> H]. f_equal. apply IH. exact H.
Qed.

Lemma strings_of_map (l : list pystr) : strings_of (map JStr l) = Some l.
Proof. induction l as [|x l IH]; simpl; [reflexivity|]. rewrite IH. reflexivity. Qed.

(** A History Record is read back from its JSON form with every field. *)
Lemma record_of_json_record (r : log_record) : record_of_json (record_json r) = Some r.
Proof.
  destruct r as [t src segs fid].
  unfold record_json, log_entry, record_of_json, obj_lookup. simpl.
  rewrite strings_of_map. destruct fid; reflexivity.
Qed.

Lemma existsb_false_Forall {A : Type} (f : A -> bool) (l : list A) :
  existsb f l = false <-> Forall (fun x => f x = false) l.
Proof.
  induction l as [|x l IH]; simpl; [split; [constructor | reflexivity]|].
  rewrite orb_false_iff, Forall_cons_iff, IH. reflexivity.
Qed.

Lemma save_log_appends (w : world) (prior : list json) (entry : json) :
  fst (load_log w) = Ok (JArr prior) ->
  files w LOG_FILE <> Some Unopenable ->
  has_surrogate (JArr (prior ++ [entry])) = false ->
  exists w', save_log entry w = (Ok tt, w') /\
             files w' LOG_FILE = Some (Json (JArr (prior ++ [entry]))) /\
             fst (load_log w') = Ok (JArr (prior ++ [entry])).
Proof.
  intros H Hopen Hs. rewrite load_log_eq in H. simpl in H.
  exists (set_files w (fun p => if String.eqb p LOG_FILE
                                then Some (Json (JArr (prior ++ [entry]))) else files w p)).
  split; [|split].
  - unfold save_log, bind. rewrite load_log_eq.
    destruct (files w LOG_FILE) as [[| |v]|] eqn:E; [congruence| | |];
      injection H as H; subst; unfold json_dump_file; rewrite E, Hs; reflexivity.
  - simpl. rewrite ?String.eqb_refl. reflexivity.
  - rewrite load_log_eq. simpl. rewrite ?String.eqb_refl. reflexivity.
Qed.

(** C9 (amended): from a well-formed history file state -- the path is
    absent or is a file that opens -- whose records [load_log] reads as
    [prior], appending the records [rs] one by one with [save_log] and
    loading again gives [prior] followed by the records of [rs] in append
    order, each of which reads back with all its fields (timestamp, source
    tag, segments, nullable first id), provided no string of [prior] or of
    [rs] holds a lone surrogate, which the UTF-8 writer cannot encode. *)
Theorem save_log_roundtrip (w : world) (prior : list json) (rs : list log_record)
  (Hprior : fst (load_log w) = Ok (JArr prior))
  (Hopen : files w LOG_FILE <> Some Unopenable)
  (Hprior_enc : Forall (fun v => has_surrogate v = false) prior)
  (Hrs_enc : Forall (fun r => has_surrogate (record_json r) = false) rs) :
  exists w', save_all rs w = (Ok tt, w') /\
    fst (load_log w') = Ok (JArr (prior ++ map record_json rs)) /\
    map record_of_json (map record_json rs) = map Some rs.
Proof.
  revert w prior Hprior Hopen Hprior_enc.
  induction rs as [|r rs IH]; intros w prior Hprior Hopen Hprior_enc.
  - exists w. split; [reflexivity|]. rewrite app_nil_r. split; [exact Hprior | reflexivity].
  - apply Forall_cons_iff in Hrs_enc as [Hr Hrs].
    assert (Henc : Forall (fun v => has_surrogate v = false) (prior ++ [record_json r]))
      by (apply Forall_app; split; [exact Hprior_enc | constructor; [exact Hr | constructor]]).
    destruct (save_log_appends w prior (record_json r) Hprior Hopen)
      as [w1 [Hs [Hf Hl]]]; [simpl; apply existsb_false_Forall; exact Henc|].
    destruct (IH Hrs w1 (prior ++ [record_json r]) Hl) as [w2 [Hs2 [Hl2 Hm]]];
      [rewrite Hf; discriminate | exact Henc |].
    exists w2. split.
    + simpl. unfold bind. rewrite Hs. exact Hs2.
    + split.
      * rewrite Hl2, <- app_assoc. reflexivity.
      * cbn [map]. rewrite record_of_json_record, Hm. reflexivity.
Qed.

Definition record_a : log_record :=
  mkRecord (s "2025-01-01T20:00:00Z") (s "fallback") [s "a"] None.

(** Two records appended to a missing history file. *)
Lemma save_log_roundtrip_witness :
  fst (load_log empty_world) = Ok (JArr []) /\
  files empty_world LOG_FILE <> Some Unopenable /\
  exists w', save_all [record_a; record_a] empty_world = (Ok tt, w') /\
    fst (load_log w') = Ok (JArr ([] ++ map record_json [record_a; record_a])) /\
    map record_of_json (map record_json [record_a; record_a]) = map Some [record_a; record_a].
Proof.
  assert (H : fst (load_log empty_world) = Ok (JArr [])) by reflexivity.
  assert (Ho : files empty_world LOG_FILE <> Some Unopenable) by discriminate.
  split; [exact H | split; [exact Ho |]].
  exact (save_log_roundtrip empty_world [] [record_a; record_a] H Ho (Forall_nil _)
           ltac:(repeat constructor)).
Defined.

(** A history file holding one record, and a record one of whose segments
    is the lone surrogate U+D800 (which [json.loads] produces from the
    escape ["\ud800"] in a generated-text response). *)
Definition world_one_record : world :=
  set_files empty_world (fun p => if String.eqb p LOG_FILE
                                  then Some (Json (JArr [record_json record_a])) else None).

Definition record_surrogate : log_record :=
  mkRecord (s "2025-01-01T08:00:00Z") (s "ai") [[55296%N]] None.

(** C9 (counterexample): appending [record_surrogate] to a one-record
    history raises [UnicodeEncodeError] while the file is rewritten, and
    loading afterwards returns the empty sequence: the prior record is lost
    and the appended one is not stored. *)
Lemma save_log_surrogate_loses_history :
  fst (load_log world_one_record) = Ok (JArr [record_json record_a]) /\
  fst (save_all [record_surrogate] world_one_record) = Raise UnicodeEncodeError /\
  fst (load_log (snd (save_all [record_surrogate] world_one_record))) = Ok (JArr []).
Proof. vm_compute. repeat split. Qed.

(* ------------------------------------------------------------------ *)
(** ** [pick_fallback]: C4 *)

(** A history entry carrying a source tag and a list of text segments. *)
Definition record_shaped (h : json) : Prop :=
  exists kvs src segs, h = JObj kvs /\ obj_lookup (s "source") kvs = Some src /\
                       obj_lookup (s "tweets") kvs = Some (JArr (map JStr segs)).

(** The thread [u] appears among the fallback-tagged entries of [hs]. *)
Definition fallback_used (hs : list json) (u : list pystr) : Prop :=
  exists kvs, In (JObj kvs) hs /\
              obj_lookup (s "source") kvs = Some (JStr (s "fallback")) /\
              obj_lookup (s "tweets") kvs = Some (JArr (map JStr u)).

Lemma JStr_map_inj (u v : list pystr) : map JStr u = map JStr v -> u = v.
Proof.
  revert v. induction u as [|x u IH]; intros [|y v] H; try discriminate; [reflexivity|].
  simpl in H. injection H as -> E. f_equal. apply IH. exact E.
Qed.

Lemma py_eq_str_spec (v : json) (x : pystr) : py_eq_str v x = true <-> v = JStr x.
Proof.
  destruct v; simpl; try (split; [discriminate | intros H; discriminate H]).
  rewrite str_eqb_eq. split; [intros ->; reflexivity | intros H; injection H as ->; reflexivity].
Qed.

Lemma tuple_eq_strings (u v : list pystr) :
  tuple_eq (map JStr u) (map JStr v) = true <-> u = v.
Proof.
  revert v. induction u as [|x u IH]; intros [|y v]; simpl;
    try (split; [discriminate | intros H; discriminate H]); [split; reflexivity|].
  rewrite andb_true_iff, str_eqb_eq, IH.
  split; [intros [-> ->]; reflexivity | intros H; injection H as -> ->; split; reflexivity].
Qed.

Lemma hashable_strings (u : list pystr) : forallb hashable (map JStr u) = true.
Proof. induction u as [|x u IH]; simpl; [reflexivity | exact IH]. Qed.

Lemma collect_used_spec (hs : list json) (w : world) :
  Forall record_shaped hs ->
  exists used, collect_used hs w = (Ok used, w) /\
    Forall (fun key => exists segs, key = map JStr segs) used /\
    (forall u, In (map JStr u) used <-> fallback_used hs u).
Proof.
  intros Hs. induction Hs as [|h hs [kvs [src [segs [-> [Hsrc Htw]]]]] _ IH].
  - exists []. split; [reflexivity|]. split; [constructor|].
    intros u. split; [intros []|]. intros [kvs [[] _]].
  - destruct IH as [used [Hc [Hk Hu]]].
    simpl. unfold bind, get_item. rewrite Hsrc. cbv [ret]. cbv beta iota zeta.
    destruct (py_eq_str src (s "fallback")) eqn:Hf.
    + apply py_eq_str_spec in Hf. subst src.
      rewrite Htw. cbv [py_iter ret]. cbv beta iota zeta.
      rewrite hashable_strings, Hc.
      exists (map JStr segs :: used). split; [reflexivity|].
      split; [constructor; [exists segs; reflexivity | exact Hk]|].
      intros u. split.
      * intros [E|E].
        -- apply JStr_map_inj in E. subst u. exists kvs.
           split; [left; reflexivity | split; assumption].
        -- apply Hu in E. destruct E as [kvs' [Hin Hr]]. exists kvs'.
           split; [right; exact Hin | exact Hr].
      * intros [kvs' [[E|Hin] [Hs' Ht']]].
        -- injection E as ->. rewrite Htw in Ht'. injection Ht' as Ht'.
           apply JStr_map_inj in Ht'. subst. left. reflexivity.
        -- right. apply Hu. exists kvs'. split; [exact Hin | split; assumption].
    + rewrite Hc. exists used. split; [reflexivity|]. split; [exact Hk|].
      intros u. rewrite Hu. split.
      * intros [kvs' [Hin Hr]]. exists kvs'. split; [right; exact Hin | exact Hr].
      * intros [kvs' [[E|Hin] [Hs' Ht']]].
        -- injection E as ->. rewrite Hsrc in Hs'. injection Hs' as ->.
           rewrite (proj2 (py_eq_str_spec _ _) eq_refl) in Hf. discriminate.
        -- exists kvs'. split; [exact Hin | split; assumption].
Qed.

Lemma filter_unused_strings (pool : list (list pystr)) (used : list (list json))
    (w : world) :
  filter_unused (map (map JStr) pool) used w =
    (Ok (map (map JStr)
           (filter (fun t => negb (existsb (tuple_eq (map JStr t)) used)) pool)), w).
Proof.
  induction pool as [|t pool IH]; simpl; [reflexivity|].
  rewrite hashable_strings. unfold bind. rewrite IH. simpl.
  destruct (existsb (tuple_eq (map JStr t)) used); reflexivity.
Qed.

Lemma existsb_used (used : list (list json)) (t : list pystr) :
  Forall (fun key => exists segs, key = map JStr segs) used ->
  existsb (tuple_eq (map JStr t)) used = true <-> In (map JStr t) used.
Proof.
  intros Hk. rewrite existsb_exists. split.
  - intros [key [Hin Heq]]. rewrite Forall_forall in Hk.
    destruct (Hk key Hin) as [segs ->]. apply tuple_eq_strings in Heq. subst. exact Hin.
  - intros Hin. exists (map JStr t). split; [exact Hin|]. apply tuple_eq_strings. reflexivity.
Qed.

(** C4: with a non-empty pool of text threads and a history whose entries
    carry a source tag and a list of segments, [pick_fallback] returns a
    member of the pool; and when some pool thread is not among the
    fallback-tagged entries of the history, the returned thread is not among
    them either. *)
Theorem pick_fallback_prefers_unused (pool : list (list pystr)) (w : world)
  (hs : list json)
  (Hpool : pool <> [])
  (Hlog : fst (load_log w) = Ok (JArr hs))
  (Hrec : Forall record_shaped hs) :
  exists t w', pick_fallback (map (map JStr) pool) w = (Ok (map JStr t), w') /\
    In t pool /\
    ((exists u, In u pool /\ ~ fallback_used hs u) -> ~ fallback_used hs t).
Proof.
  assert (Hl : load_log w = (Ok (JArr hs), w)).
  { rewrite load_log_eq in *. simpl in Hlog. rewrite Hlog. reflexivity. }
  destruct (collect_used_spec hs w Hrec) as [used [Hc [Hk Hu]]].
  set (keep := fun t : list pystr => negb (existsb (tuple_eq (map JStr t)) used)).
  assert (Hkeep : forall t, keep t = true <-> ~ fallback_used hs t).
  { intros t. unfold keep. rewrite negb_true_iff, <- Hu, <- (existsb_used used t Hk).
    destruct (existsb _ _); split; congruence. }
  assert (Hp : pick_fallback (map (map JStr) pool) w =
               match map (map JStr) (filter keep pool) with
               | [] => random_choice (map (map JStr) pool)
               | _ => random_choice (map (map JStr) (filter keep pool))
               end w).
  { unfold pick_fallback, bind. rewrite Hl. cbv [py_iter ret]. cbv beta iota zeta.
    rewrite Hc, filter_unused_strings. reflexivity. }
  rewrite Hp. clear Hp.
  destruct (filter keep pool) as [|t0 rest] eqn:Hf.
  - destruct (random_choice_spec (map (map JStr) pool) w) as [x [w' [Hx [Hin _]]]].
    { destruct pool; [congruence | discriminate]. }
    apply in_map_iff in Hin. destruct Hin as [t [<- Hin]].
    exists t, w'. split; [exact Hx|]. split; [exact Hin|].
    intros [u [Hu1 Hu2]]. exfalso.
    assert (Hfu : In u (filter keep pool)) by (apply filter_In; rewrite Hkeep; tauto).
    rewrite Hf in Hfu. contradiction.
  - destruct (random_choice_spec (map (map JStr) (t0 :: rest)) w)
      as [x [w' [Hx [Hin _]]]]; [discriminate|].
    apply in_map_iff in Hin. destruct Hin as [t [<- Hin]].
    rewrite <- Hf, filter_In, Hkeep in Hin.
    exists t, w'. split; [exact Hx|]. split; [tauto|]. intros _. tauto.
Qed.

(** A history file holding one fallback record for the thread ["a"]. *)
Definition world_c4 : world :=
  set_files empty_world (fun p => if String.eqb p LOG_FILE
                                  then Some (Json (JArr [record_json record_a]))
                                  else None).

Lemma pick_fallback_prefers_unused_witness :
  ([[s "a"]; [s "b"]] <> [] /\
   fst (load_log world_c4) = Ok (JArr [record_json record_a]) /\
   Forall record_shaped [record_json record_a]) /\
  exists t w', pick_fallback (map (map JStr) [[s "a"]; [s "b"]]) world_c4 =
                 (Ok (map JStr t), w') /\
    In t [[s "a"]; [s "b"]] /\
    ((exists u, In u [[s "a"]; [s "b"]] /\ ~ fallback_used [record_json record_a] u) ->
     ~ fallback_used [record_json record_a] t).
Proof.
  assert (H1 : [[s "a"]; [s "b"]] <> []) by discriminate.
  assert (H2 : fst (load_log world_c4) = Ok (JArr [record_json record_a])) by reflexivity.
  assert (H3 : Forall record_shaped [record_json record_a]).
  { constructor; [|constructor].
    exists (match record_json record_a with JObj kvs => kvs | _ => [] end),
           (JStr (s "fallback")), [s "a"].
    split; [reflexivity | split; reflexivity]. }
  split; [split; [exact H1 | split; [exact H2 | exact H3]]|].
  exact (pick_fallback_prefers_unused [[s "a"]; [s "b"]] world_c4
           [record_json record_a] H1 H2 H3).
Defined.

(* ------------------------------------------------------------------ *)
(** ** Posting and the run: C5, C10 *)

(** [m] leaves every file as it found it, whether it returns or raises. *)
Definition keeps_files {A} (m : M A) : Prop := forall w, files (snd (m w)) = files w.

Create HintDb keeps.

Lemma keeps_ret {A} (a : A) : keeps_files (ret a).
Proof. intros w. reflexivity. Qed.

Lemma keeps_raise {A} (e : exn) : keeps_files (@raise A e).
Proof. intros w. reflexivity. Qed.

Lemma keeps_bind {A B} (m : M A) (k : A -> M B) :
  keeps_files m -> (forall a, keeps_files (k a)) -> keeps_files (bind m k).
Proof.
  intros Hm Hk w. unfold bind. specialize (Hm w).
  destruct (m w) as [[a|e] w'] eqn:E; simpl in *; [rewrite Hk|]; exact Hm.
Qed.

Lemma keeps_try {A} (m : M A) (h : exn -> M A) :
  keeps_files m -> (forall e, keeps_files (h e)) -> keeps_files (try_except m h).
Proof.
  intros Hm Hh w. unfold try_except. specialize (Hm w).
  destruct (m w) as [[a|e] w'] eqn:E; simpl in *; [|rewrite Hh]; exact Hm.
Qed.

Lemma keeps_os_path_exists fn : keeps_files (os_path_exists fn).
Proof. intros w. reflexivity. Qed.

Lemma keeps_json_load_file fn : keeps_files (json_load_file fn).
Proof. intros w. unfold json_load_file. destruct (files w fn) as [[| |]|]; reflexivity. Qed.

Lemma keeps_sleep n : keeps_files (sleep n).
Proof. intros w. reflexivity. Qed.

Lemma keeps_rand_below n : keeps_files (rand_below n).
Proof. intros w. unfold rand_below. destruct (rng w); reflexivity. Qed.

Lemma keeps_create_tweet text parent : keeps_files (create_tweet text parent).
Proof. intros w. unfold create_tweet. destruct (api w) as [|[|] ?]; reflexivity. Qed.

#[local] Hint Resolve keeps_ret keeps_raise keeps_os_path_exists keeps_json_load_file
  keeps_sleep keeps_rand_below keeps_create_tweet : keeps.

Ltac solve_keeps :=
  repeat match goal with
  | |- forall _, _ => intro
  | |- keeps_files (bind _ _) => apply keeps_bind
  | |- keeps_files (try_except _ _) => apply keeps_try
  | |- keeps_files (match ?x with _ => _ end) => destruct x
  | |- keeps_files (if ?b then _ else _) => destruct b
  | |- keeps_files _ => solve [eauto with keeps]
  end.

Lemma keeps_random_choice {A} (l : list A) : keeps_files (random_choice l).
Proof. unfold random_choice. solve_keeps. Qed.

Lemma keeps_random_sample {A} (l : list A) k : keeps_files (random_sample l k).
Proof. revert l. induction k; intros l; simpl; solve_keeps. Qed.

Lemma keeps_get_item h k : keeps_files (get_item h k).
Proof. unfold get_item. solve_keeps. Qed.

Lemma keeps_py_iter v : keeps_files (py_iter v).
Proof. unfold py_iter. solve_keeps. Qed.

#[local] Hint Resolve keeps_random_choice keeps_random_sample keeps_get_item
  keeps_py_iter : keeps.

Lemma keeps_load_log : keeps_files load_log.
Proof. unfold load_log. solve_keeps. Qed.

Lemma keeps_collect_used hs : keeps_files (collect_used hs).
Proof. induction hs; simpl; solve_keeps. Qed.

Lemma keeps_filter_unused pool used : keeps_files (filter_unused pool used).
Proof. induction pool; simpl; solve_keeps. Qed.

#[local] Hint Resolve keeps_load_log keeps_collect_used keeps_filter_unused : keeps.

Lemma keeps_pick_fallback pool : keeps_files (pick_fallback pool).
Proof. unfold pick_fallback. solve_keeps. Qed.

Lemma keeps_pick_hashtags : keeps_files pick_hashtags.
Proof. unfold pick_hashtags. solve_keeps. Qed.

#[local] Hint Resolve keeps_pick_fallback keeps_pick_hashtags : keeps.

Lemma keeps_parse_thread_list raw : keeps_files (parse_thread_list raw).
Proof. unfold parse_thread_list. solve_keeps. Qed.

Lemma keeps_post_attempts text parent attempts :
  keeps_files (post_attempts text parent attempts).
Proof. induction attempts; simpl; solve_keeps. Qed.

#[local] Hint Resolve keeps_parse_thread_list keeps_post_attempts : keeps.

Lemma keeps_post_loop tweets first_id parent_id :
  keeps_files (post_loop tweets first_id parent_id).
Proof. revert first_id parent_id. induction tweets; simpl; solve_keeps. Qed.

Lemma keeps_call_hf_inference hf : keeps_files (call_hf_inference hf).
Proof. unfold call_hf_inference. solve_keeps. Qed.

#[local] Hint Resolve keeps_post_loop keeps_call_hf_inference : keeps.

Lemma keeps_select_thread run_mode pool hf : keeps_files (select_thread run_mode pool hf).
Proof. unfold select_thread. solve_keeps. Qed.

Lemma keeps_post_thread tweets : keeps_files (post_thread tweets).
Proof. unfold post_thread. solve_keeps. Qed.

(** C5: when the thread has been selected and [post_thread] raises (a
    segment failed its three attempts), [main] raises the same exception in
    the state [post_thread] left: [save_log] is never reached and no file,
    the history file included, has changed since the run started. *)
Theorem main_post_failure_no_log (run_mode_env hf : option pystr) (utcnow : pystr)
  (w w0 w1 w2 : world) (pool : list (list json)) (tweets : list json)
  (source : pystr) (e : exn)
  (Hload : load_fallback_threads "fallback.json" w = (Ok pool, w0))
  (Hsel : select_thread (strip (match run_mode_env with Some v => v | None => [] end))
                        pool hf w0 = (Ok (tweets, source), w1))
  (Hpost : post_thread tweets w1 = (Raise e, w2)) :
  main run_mode_env hf utcnow w = (Raise e, w2) /\ files w2 = files w.
Proof.
  split.
  - unfold main, bind. rewrite Hload, Hsel. cbv beta iota. rewrite Hpost. reflexivity.
  - pose proof (keeps_post_thread tweets w1) as K2. rewrite Hpost in K2.
    pose proof (keeps_select_thread
                  (strip (match run_mode_env with Some v => v | None => [] end))
                  pool hf w0) as K1. rewrite Hsel in K1.
    pose proof (load_fallback_threads_keeps_world "fallback.json" w) as [p K0].
    rewrite Hload in K0. injection K0 as _ <-.
    simpl in K1, K2. congruence.
Qed.

(** An evening run: the pool holds the thread ["a"; "b"], the first segment
    is posted, the second fails three times. *)
Definition world_c5 : world :=
  mkWorld (fun p => if String.eqb p "fallback.json"
                    then Some (Json (JArr [JArr [JStr (s "a"); JStr (s "b")]]))
                    else None)
          [] [ApiOk (s "1"); ApiErr; ApiErr; ApiErr] [] [].

Definition world_c5_failed : world :=
  mkWorld (files world_c5) [] [] [(JStr (s "a"), None)] [2; 2; 4; 6].

Lemma main_post_failure_no_log_witness :
  (load_fallback_threads "fallback.json" world_c5 =
     (Ok [[JStr (s "a"); JStr (s "b")]], world_c5) /\
   select_thread (strip EVENING) [[JStr (s "a"); JStr (s "b")]] None world_c5 =
     (Ok ([JStr (s "a"); JStr (s "b")], s "fallback"), world_c5) /\
   post_thread [JStr (s "a"); JStr (s "b")] world_c5 =
     (Raise TweepyException, world_c5_failed)) /\
  main (Some EVENING) None (s "2025-01-01T20:00:00") world_c5 =
    (Raise TweepyException, world_c5_failed) /\
  files world_c5_failed = files world_c5 /\
  posted world_c5_failed = [(JStr (s "a"), None)].
Proof.
  assert (H1 : load_fallback_threads "fallback.json" world_c5 =
                 (Ok [[JStr (s "a"); JStr (s "b")]], world_c5)) by reflexivity.
  assert (H2 : select_thread (strip EVENING) [[JStr (s "a"); JStr (s "b")]] None world_c5 =
                 (Ok ([JStr (s "a"); JStr (s "b")], s "fallback"), world_c5))
    by reflexivity.
  assert (H3 : post_thread [JStr (s "a"); JStr (s "b")] world_c5 =
                 (Raise TweepyException, world_c5_failed)) by reflexivity.
  split; [split; [exact H1 | split; [exact H2 | exact H3]]|].
  destruct (main_post_failure_no_log (Some EVENING) None (s "2025-01-01T20:00:00")
              world_c5 world_c5 world_c5 world_c5_failed _ _ _ _ H1 H2 H3) as [Hm Hf].
  split; [exact Hm | split; [exact Hf | reflexivity]].
Defined.

(** C10: [post_thread([])] makes no call to the posting API, leaves the world
    unchanged and returns [None]. *)
Theorem post_thread_empty (w : world) : post_thread [] w = (Ok None, w).
Proof. reflexivity. Qed.

(* ------------------------------------------------------------------ *)
(** * Further properties of the program *)

(* ------------------------------------------------------------------ *)
(** ** Stripping *)

Lemma lstrip_suffix (x : pystr) : exists p, x = p ++ lstrip x.
Proof.
  induction x as [|c x [p Hp]]; simpl.
  - exists []. reflexivity.
  - destruct (isspace c).
    + exists (c :: p). simpl. rewrite <- Hp. reflexivity.
    + exists []. reflexivity.
Qed.

Lemma rstrip_prefix (x : pystr) : exists q, x = rstrip x ++ q.
Proof.
  destruct (lstrip_suffix (rev x)) as [p Hp]. exists (rev p).
  unfold rstrip. rewrite <- rev_app_distr, <- Hp, rev_involutive. reflexivity.
Qed.

Lemma lstrip_head (x : pystr) (c : N) (r : pystr) :
  lstrip x = c :: r -> isspace c = false.
Proof.
  induction x as [|d x IH]; simpl; [discriminate|].
  destruct (isspace d) eqn:E; [exact IH|]. intros H. injection H as <- _. exact E.
Qed.

Lemma lstrip_fix (y : pystr) :
  (forall c r, y = c :: r -> isspace c = false) -> lstrip y = y.
Proof.
  destruct y as [|c r]; intros H; [reflexivity|]. simpl. rewrite (H c r eq_refl). reflexivity.
Qed.

Lemma lstrip_idem (x : pystr) : lstrip (lstrip x) = lstrip x.
Proof. apply lstrip_fix. intros c r H. exact (lstrip_head x c r H). Qed.

Lemma strip_idem (x : pystr) : strip (strip x) = strip x.
Proof.
  unfold strip at 1 2. set (a := lstrip x).
  assert (Hb : lstrip (rstrip a) = rstrip a).
  { apply lstrip_fix. intros c r H.
    destruct (rstrip_prefix a) as [q Hq]. rewrite H in Hq.
    exact (lstrip_head x c (r ++ q) Hq). }
  rewrite Hb. unfold rstrip. rewrite rev_involutive, lstrip_idem. reflexivity.
Qed.

Lemma clamp_tweet_stripped (text : pystr) : strip (clamp_tweet text) = clamp_tweet text.
Proof.
  unfold clamp_tweet. destruct (length text <=? MAX_TWEET_LEN); [apply strip_idem|].
  cbv zeta. apply strip_idem.
Qed.

Lemma incl_lstrip (x : pystr) : incl (lstrip x) x.
Proof.
  destruct (lstrip_suffix x) as [p Hp]. intros c Hc. rewrite Hp.
  apply in_or_app. right. exact Hc.
Qed.

Lemma incl_rstrip (x : pystr) : incl (rstrip x) x.
Proof.
  destruct (rstrip_prefix x) as [q Hq]. intros c Hc. rewrite Hq.
  apply in_or_app. left. exact Hc.
Qed.

Lemma incl_strip (x : pystr) : incl (strip x) x.
Proof. unfold strip. eapply incl_tran; [apply incl_rstrip | apply incl_lstrip]. Qed.

Lemma incl_lstrip_chars (chars x : pystr) : incl (lstrip_chars chars x) x.
Proof.
  induction x as [|c x IH]; simpl; [apply incl_refl|].
  destruct (existsb (N.eqb c) chars); [|apply incl_refl].
  intros d Hd. right. exact (IH d Hd).
Qed.

Lemma incl_slice_to (k : Z) (x : pystr) : incl (slice_to k x) x.
Proof. unfold slice_to. destruct (k <? 0)%Z; intros c Hc; exact (in_firstn _ _ _ Hc). Qed.

(** Every character of a clamped text comes from the text, or is the
    ellipsis. *)
Lemma clamp_tweet_chars (text : pystr) (c : N) :
  In c (clamp_tweet text) -> In c text \/ c = ELLIPSIS.
Proof.
  unfold clamp_tweet. destruct (length text <=? MAX_TWEET_LEN).
  - intros H. left. exact (incl_strip text c H).
  - cbv zeta. intros H. apply incl_strip, in_app_or in H.
    destruct H as [H|[H|[]]]; [left|right; congruence].
    apply (in_firstn (MAX_TWEET_LEN - 1)).
    destruct (existsb (N.eqb SPACE) (firstn (MAX_TWEET_LEN - 1) text));
      [exact (incl_slice_to _ _ c H) | exact H].
Qed.

(* ------------------------------------------------------------------ *)
(** ** Lines *)

(** A character at which [str.splitlines] ends a line. *)
Definition breaks_line (c : N) : bool := is_linebreak c || N.eqb c 13.

Definition one_line (t : pystr) : Prop := forall c, In c t -> breaks_line c = false.

Lemma one_line_incl (t u : pystr) : incl t u -> one_line u -> one_line t.
Proof. intros H Hu c Hc. exact (Hu c (H c Hc)). Qed.

Lemma one_line_rev (t : pystr) : one_line t -> one_line (rev t).
Proof. intros H c Hc. apply H. apply in_rev. exact Hc. Qed.

Ltac splitlines_step IH Hcur Hx :=
  constructor; [apply one_line_rev; exact Hcur
               | apply IH; [simpl in Hx |- *; lia | intros ? []]].

Lemma splitlines_aux_one_line (n : nat) (x cur : pystr) :
  length x <= n -> one_line cur -> Forall one_line (splitlines_aux x cur).
Proof.
  revert x cur. induction n as [|n IH]; intros x cur Hx Hcur.
  - destruct x; [|simpl in Hx; lia]. simpl.
    destruct cur; constructor; [apply one_line_rev; exact Hcur | constructor].
  - destruct x as [|c x'].
    + simpl. destruct cur; constructor; [apply one_line_rev; exact Hcur | constructor].
    + cbn [splitlines_aux]. destruct (N.eqb c 13) eqn:E13.
      * destruct x' as [|d x'']; [splitlines_step IH Hcur Hx|].
        destruct d as [|p]; [splitlines_step IH Hcur Hx|].
        repeat (destruct p as [p|p|]; try splitlines_step IH Hcur Hx).
      * destruct (is_linebreak c) eqn:El; [splitlines_step IH Hcur Hx|].
        apply IH; [simpl in Hx; lia|].
        intros d [<-|Hd]; [unfold breaks_line; rewrite El, E13; reflexivity | exact (Hcur d Hd)].
Qed.

Lemma nonempty_lines_one_line (raw : pystr) : Forall one_line (nonempty_lines raw).
Proof.
  unfold nonempty_lines, splitlines.
  pose proof (splitlines_aux_one_line (length (strip raw)) (strip raw) [] (le_n _)
                (fun c (H : In c []) => match H with end)) as H.
  rewrite Forall_forall in *. intros t Ht. apply filter_In in Ht as [Ht _].
  apply in_map_iff in Ht as [ln [<- Hln]].
  exact (one_line_incl _ _ (incl_strip ln) (H ln Hln)).
Qed.

Lemma strip_ordinal_incl (ln : pystr) : incl (strip_ordinal ln) ln.
Proof.
  unfold strip_ordinal. destruct ln as [|c ln]; [apply incl_refl|].
  destruct (isdigit c); [apply incl_lstrip_chars | apply incl_refl].
Qed.

Lemma clamp_tweet_one_line (text : pystr) : one_line text -> one_line (clamp_tweet text).
Proof.
  intros H c Hc. destruct (clamp_tweet_chars text c Hc) as [Hin| ->];
    [exact (H c Hin) | reflexivity].
Qed.

Lemma join_chars (sep c : N) (xs : list pystr) :
  In c (join sep xs) -> c = sep \/ exists x, In x xs /\ In c x.
Proof.
  induction xs as [|x xs IH]; [simpl; tauto|].
  destruct xs as [|y xs'].
  - intros H. right. exists x. split; [left; reflexivity | exact H].
  - change (join sep (x :: y :: xs')) with (x ++ [sep] ++ join sep (y :: xs')).
    intros H. apply in_app_or in H. destruct H as [H|[H|H]].
    + right. exists x. split; [left; reflexivity | exact H].
    + left. symmetry. exact H.
    + destruct (IH H) as [E|[z [Hz Hc]]]; [left; exact E|].
      right. exists z. split; [right; exact Hz | exact Hc].
Qed.

(* ------------------------------------------------------------------ *)
(** ** [random.sample] and [pick_hashtags] *)

Lemma remove_nth_incl {A} (i : nat) (l : list A) (x : A) : In x (remove_nth i l) -> In x l.
Proof.
  revert i. induction l as [|y l IH]; intros [|i]; simpl; try tauto.
  intros [->|H]; [left; reflexivity | right; exact (IH i H)].
Qed.

Lemma remove_nth_NoDup {A} (i : nat) (l : list A) : NoDup l -> NoDup (remove_nth i l).
Proof.
  revert i. induction l as [|y l IH]; intros i H; [destruct i; constructor|].
  inversion H as [|? ? Hy Hl]; subst.
  destruct i as [|i]; simpl; [exact Hl|].
  constructor; [intros Hin; apply Hy; exact (remove_nth_incl i l y Hin) | exact (IH i Hl)].
Qed.

Lemma remove_nth_notin {A} (i : nat) (l : list A) (d : A) :
  NoDup l -> i < length l -> ~ In (nth i l d) (remove_nth i l).
Proof.
  revert i. induction l as [|y l IH]; intros i H Hi; [simpl in Hi; lia|].
  inversion H as [|? ? Hy Hl]; subst.
  destruct i as [|i]; simpl; [exact Hy|].
  intros [E|Hin].
  - apply Hy. rewrite E. apply nth_In. simpl in Hi. lia.
  - apply (IH i Hl); [simpl in Hi; lia | exact Hin].
Qed.

Lemma rand_below_lt (n : nat) (w w' : world) (i : nat) :
  0 < n -> rand_below n w = (Ok i, w') -> i < n.
Proof.
  intros Hn H. destruct (rand_below_spec n w Hn) as [i' [w'' [H' [Hi _]]]].
  rewrite H in H'. injection H' as <- _. exact Hi.
Qed.

Lemma random_sample_spec {A} (l : list A) (k : nat) (w : world) (r : list A) (w' : world) :
  random_sample l k w = (Ok r, w') -> length r = k /\ incl r l /\ (NoDup l -> NoDup r).
Proof.
  revert l w r w'. induction k as [|k IH]; intros l w r w' H; cbn [random_sample] in H.
  - injection H as <- _. split; [reflexivity|]. split; [intros x []|intros _; constructor].
  - destruct l as [|d l']; [discriminate|].
    unfold bind in H.
    destruct (rand_below (length (d :: l')) w) as [[i|e] w1] eqn:Hr; [|discriminate].
    destruct (random_sample (remove_nth i (d :: l')) k w1) as [[rest|e] w2] eqn:Hs;
      [|discriminate].
    injection H as <- _.
    destruct (IH _ _ _ _ Hs) as [Hlen [Hincl Hnd]].
    assert (Hi : i < length (d :: l')) by (apply (rand_below_lt _ w w1); [simpl; lia | exact Hr]).
    split; [simpl; rewrite Hlen; reflexivity|]. split.
    + intros x [<-|Hx]; [exact (nth_In (d :: l') d Hi)|].
      exact (remove_nth_incl i _ x (Hincl x Hx)).
    + intros Hnd0. constructor.
      * intros Hin. exact (remove_nth_notin i _ d Hnd0 Hi (Hincl _ Hin)).
      * apply Hnd. apply remove_nth_NoDup. exact Hnd0.
Qed.

Lemma pick_hashtags_spec (w : world) :
  exists bucket tags w', pick_hashtags w = (Ok (join SPACE tags), w') /\
    In bucket HASHTAG_BUCKETS /\ (length tags = 2 \/ length tags = 3) /\
    NoDup tags /\ incl tags bucket.
Proof.
  unfold pick_hashtags.
  destruct (random_choice_spec HASHTAG_BUCKETS w) as [b [w1 [H1 [Hb _]]]];
    [discriminate|].
  unfold bind at 1. rewrite H1.
  destruct (random_choice_spec [2; 3] w1) as [k [w2 [H2 [Hk _]]]]; [discriminate|].
  unfold bind at 1. rewrite H2.
  destruct (random_sample_ok b k w2) as [r [w3 H3]].
  { simpl in Hb, Hk.
    destruct Hb as [<-|[<-|[<-|[]]]]; destruct Hk as [<-|[<-|[]]]; simpl; lia. }
  unfold bind. rewrite H3.
  destruct (random_sample_spec b k w2 r w3 H3) as [Hlen [Hincl Hnd]].
  exists b, r, w3. split; [reflexivity|]. split; [exact Hb|]. split.
  - rewrite Hlen. simpl in Hk. destruct Hk as [<-|[<-|[]]]; [left|right]; reflexivity.
  - split; [|exact Hincl]. apply Hnd.
    simpl in Hb. destruct Hb as [<-|[<-|[<-|[]]]];
      repeat constructor; vm_compute; intuition discriminate.
Qed.

Lemma one_line_forallb (t : pystr) :
  forallb (fun c => negb (breaks_line c)) t = true -> one_line t.
Proof.
  intros H c Hc. rewrite forallb_forall in H. specialize (H c Hc).
  destruct (breaks_line c); [discriminate | reflexivity].
Qed.

Lemma one_line_app (a b : pystr) : one_line a -> one_line b -> one_line (a ++ b).
Proof. intros Ha Hb c Hc. apply in_app_or in Hc. destruct Hc; auto. Qed.

Lemma thread_segments_one_line (raw : pystr) : Forall one_line (thread_segments raw).
Proof.
  unfold thread_segments. apply Forall_app. split.
  - apply Forall_forall. intros t Ht. apply in_firstn, in_map_iff in Ht.
    destruct Ht as [ln [<- Hln]]. apply clamp_tweet_one_line.
    apply (one_line_incl _ ln (strip_ordinal_incl ln)).
    pose proof (nonempty_lines_one_line raw) as H. rewrite Forall_forall in H.
    exact (H ln Hln).
  - apply Forall_forall. intros t Ht. apply repeat_spec in Ht. subst t.
    apply one_line_forallb. reflexivity.
Qed.

Lemma hashtags_one_line (bucket tags : list pystr) :
  In bucket HASHTAG_BUCKETS -> incl tags bucket -> one_line (join SPACE tags).
Proof.
  intros Hb Ht c Hc. destruct (join_chars SPACE c tags Hc) as [->|[x [Hx Hcx]]];
    [reflexivity|].
  apply Ht in Hx. clear Hc. revert c Hcx. apply one_line_forallb.
  simpl in Hb. destruct Hb as [<-|[<-|[<-|[]]]];
    simpl in Hx; repeat (destruct Hx as [<-|Hx]; [reflexivity|]); destruct Hx.
Qed.

Lemma last_augmented_one_line (last0 ht : pystr) :
  one_line last0 -> one_line ht -> one_line (last_augmented last0 ht).
Proof.
  intros H0 Hh. unfold last_augmented.
  assert (Hs : one_line [SPACE]) by (apply one_line_forallb; reflexivity).
  assert (H1 : one_line (if contains CTA last0 then last0
                         else clamp_tweet (last0 ++ [SPACE] ++ CTA))).
  { destruct (contains CTA last0); [exact H0|]. apply clamp_tweet_one_line.
    apply one_line_app; [exact H0|]. apply one_line_app; [exact Hs|].
    apply one_line_forallb. reflexivity. }
  destruct (_ <=? _); [|exact H1].
  apply one_line_app; [exact H1|]. apply one_line_app; [exact Hs | exact Hh].
Qed.

Lemma parse_thread_list_tags (raw : pystr) (w : world) :
  exists bucket tags w', parse_thread_list raw w =
    (Ok (set_last (thread_segments raw)
           (clamp_tweet (last_augmented (last (thread_segments raw) [])
                                        (join SPACE tags)))), w') /\
    In bucket HASHTAG_BUCKETS /\ incl tags bucket.
Proof.
  destruct (pick_hashtags_spec w) as [b [tags [w' [H [Hb [_ [_ Hi]]]]]]].
  exists b, tags, w'. split; [|split; assumption].
  cbv [parse_thread_list bind]. rewrite H. reflexivity.
Qed.

(** X1: [pick_hashtags] returns two or three distinct hashtags, all taken
    from one of the three buckets, joined by single spaces; it never raises. *)
Theorem pick_hashtags_shape (w : world) :
  exists bucket tags w', pick_hashtags w = (Ok (join SPACE tags), w') /\
    In bucket HASHTAG_BUCKETS /\ (length tags = 2 \/ length tags = 3) /\
    NoDup tags /\ incl tags bucket.
Proof. exact (pick_hashtags_spec w). Qed.

(** X2: every segment of a composed thread is trimmed: stripping it again
    changes nothing, so no segment starts or ends with whitespace. *)
Theorem parse_thread_list_trimmed (raw : pystr) (w : world) :
  exists ts w', parse_thread_list raw w = (Ok ts, w') /\
    Forall (fun t => strip t = t) ts.
Proof.
  destruct (parse_thread_list_eq raw w) as [ht [w' H]]. eexists. exists w'.
  split; [exact H|].
  apply set_last_Forall; [|apply clamp_tweet_stripped].
  unfold thread_segments. apply Forall_app. split.
  - apply Forall_forall. intros t Ht. apply in_firstn, in_map_iff in Ht.
    destruct Ht as [ln [<- _]]. apply clamp_tweet_stripped.
  - apply Forall_forall. intros t Ht. apply repeat_spec in Ht. subst t. reflexivity.
Qed.

(** X3: every segment of a composed thread is a single line: it holds no
    character at which [str.splitlines] would break a line, whatever the
    generated text and the hashtags drawn. *)
Theorem parse_thread_list_single_line (raw : pystr) (w : world) :
  exists ts w', parse_thread_list raw w = (Ok ts, w') /\ Forall one_line ts.
Proof.
  destruct (parse_thread_list_tags raw w) as [b [tags [w' [H [Hb Hi]]]]].
  eexists. exists w'. split; [exact H|].
  pose proof (thread_segments_one_line raw) as Hsegs.
  apply set_last_Forall; [exact Hsegs|].
  apply clamp_tweet_one_line, last_augmented_one_line;
    [|exact (hashtags_one_line b tags Hb Hi)].
  rewrite Forall_forall in Hsegs. apply Hsegs, last_in.
  intros E. pose proof (thread_segments_length raw) as L. rewrite E in L. discriminate.
Qed.

(** X4: [clamp_tweet] is idempotent: a clamped text is left as it is by a
    second clamp. *)
Theorem clamp_tweet_idempotent (text : pystr) :
  clamp_tweet (clamp_tweet text) = clamp_tweet text.
Proof.
  pose proof (clamp_tweet_length text) as H.
  set (t := clamp_tweet text) in *. unfold clamp_tweet at 1.
  destruct (Nat.leb_spec (length t) MAX_TWEET_LEN) as [_|C]; [|lia].
  apply clamp_tweet_stripped.
Qed.

(* ------------------------------------------------------------------ *)
(** ** Posting *)

Lemma post_attempts_first_ok (text : json) (parent : option pystr) (tid : pystr)
  (rest : list api_result) (attempts : list nat) (w : world) :
  api w = ApiOk tid :: rest -> attempts <> [] ->
  post_attempts text parent attempts w =
    (Ok (Some tid), mkWorld (files w) (rng w) rest
                            (posted w ++ [(text, truthy_id parent)]) (slept w)).
Proof.
  intros H Ha. destruct attempts as [|a l]; [congruence|]. cbn [post_attempts].
  unfold try_except, bind, create_tweet, ret. rewrite H. reflexivity.
Qed.

Lemma post_loop_all_ok (tweets : list json) (ids : list pystr) (rest : list api_result)
  (first_id parent_id : option pystr) (w : world) :
  length ids = length tweets -> api w = map ApiOk ids ++ rest ->
  post_loop tweets first_id parent_id w =
    (Ok (match first_id with Some f => Some f | None => hd_error ids end),
     mkWorld (files w) (rng w) rest
             (posted w ++ combine tweets (map truthy_id (parent_id :: map Some ids)))
             (slept w ++ repeat 2 (length tweets))).
Proof.
  revert ids first_id parent_id w.
  induction tweets as [|t ts IH]; intros ids first_id parent_id w Hlen Hapi.
  - destruct ids; [|discriminate]. simpl in Hapi |- *.
    destruct w as [f r a p sl]; simpl in *; subst a. rewrite !app_nil_r.
    destruct first_id; reflexivity.
  - destruct ids as [|id ids]; [discriminate|]. simpl in Hlen, Hapi.
    cbn [post_loop]. unfold bind at 1.
    rewrite (post_attempts_first_ok t parent_id id (map ApiOk ids ++ rest))
      by (exact Hapi || discriminate).
    cbv beta iota zeta. unfold bind, sleep. cbv beta iota.
    rewrite (IH ids) by (reflexivity || lia). simpl.
    rewrite <- !app_assoc. destruct first_id; reflexivity.
Qed.

Lemma create_tweet_posted (text : json) (parent : option pystr) (w : world) :
  match create_tweet text parent w with
  | (Ok _, w') => posted w' = posted w ++ [(text, parent)]
  | (Raise _, w') => posted w' = posted w
  end.
Proof. unfold create_tweet. destruct (api w) as [|[tid|] rest]; reflexivity. Qed.

(** With [2] among the attempts the retry loop never runs out: it returns
    an id or raises. *)
Lemma post_attempts_posted (text : json) (parent : option pystr) (attempts : list nat)
  (w : world) :
  In 2 attempts ->
  match post_attempts text parent attempts w with
  | (Ok (Some _), w') => posted w' = posted w ++ [(text, truthy_id parent)]
  | (Ok None, _) => False
  | (Raise _, w') => posted w' = posted w
  end.
Proof.
  revert w. induction attempts as [|a l IH]; intros w H; [destruct H|].
  cbn [post_attempts]. unfold try_except, bind at 1.
  pose proof (create_tweet_posted text (truthy_id parent) w) as Hc.
  destruct (create_tweet text (truthy_id parent) w) as [[tid|e] w1].
  - exact Hc.
  - unfold bind, sleep. cbv beta iota.
    destruct (Nat.eqb_spec a 2) as [->|Ha]; [exact Hc|].
    destruct H as [H|H]; [congruence|].
    specialize (IH (mkWorld (files w1) (rng w1) (api w1) (posted w1)
                            (slept w1 ++ [2 + a * 2])) H).
    destruct (post_attempts text parent l _) as [[[tid|]|e'] w3];
      simpl in IH; [rewrite IH, Hc; reflexivity | exact IH | rewrite IH; exact Hc].
Qed.

Lemma post_loop_prefix (tweets : list json) (first_id parent_id : option pystr) (w : world) :
  exists k, k <= length tweets /\
    map fst (posted (snd (post_loop tweets first_id parent_id w))) =
      map fst (posted w) ++ firstn k tweets /\
    (forall v, fst (post_loop tweets first_id parent_id w) = Ok v -> k = length tweets) /\
    (forall e, fst (post_loop tweets first_id parent_id w) = Raise e -> k < length tweets).
Proof.
  revert first_id parent_id w.
  induction tweets as [|t ts IH]; intros first_id parent_id w.
  - exists 0. simpl. rewrite app_nil_r.
    split; [lia|]. split; [reflexivity|]. split; [reflexivity | discriminate].
  - cbn [post_loop]. unfold bind, sleep.
    pose proof (post_attempts_posted t parent_id [0; 1; 2] w
                  ltac:(simpl; tauto)) as Hp.
    destruct (post_attempts t parent_id [0; 1; 2] w) as [[[tid|]|e] w1];
      [| destruct Hp |].
    + cbv beta iota zeta.
      match goal with
      | |- context [post_loop ts ?a ?b ?c] => destruct (IH a b c) as [k [Hk [Hpk [Hok He]]]]
      end.
      exists (S k). simpl length. split; [lia|]. split.
      * rewrite Hpk. simpl. rewrite Hp, map_app. simpl. rewrite <- app_assoc. reflexivity.
      * split; [intros v Hv; rewrite (Hok v Hv); reflexivity|].
        intros e He'. specialize (He e He'). lia.
    + exists 0. simpl. rewrite Hp, app_nil_r.
      split; [lia|]. split; [reflexivity|]. split; [discriminate | intros; lia].
Qed.

(** X5: when the API accepts every segment, [post_thread] posts the segments
    in order -- the first one as a new tweet, each later one as a reply to
    the id of the one before (when that id is non-empty) -- sleeps two
    seconds after each, consumes one API answer per segment and returns the
    id of the first segment. *)
Theorem post_thread_chain (tweets : list json) (ids : list pystr)
  (rest : list api_result) (w : world)
  (Hlen : length ids = length tweets) (Hapi : api w = map ApiOk ids ++ rest) :
  post_thread tweets w =
    (Ok (hd_error ids),
     mkWorld (files w) (rng w) rest
       (posted w ++ combine tweets (None :: map (fun id => truthy_id (Some id)) ids))
       (slept w ++ repeat 2 (length tweets))).
Proof.
  unfold post_thread. rewrite (post_loop_all_ok tweets ids rest None None w Hlen Hapi).
  cbn [map truthy_id]. rewrite map_map. reflexivity.
Qed.

(** X6: a segment whose first [j < 3] attempts fail and whose next attempt
    succeeds is posted once, after sleeps of 2, 4, ... seconds, one per
    failed attempt. *)
Theorem post_attempts_retry (text : json) (parent : option pystr) (j : nat) (tid : pystr)
  (rest : list api_result) (w : world) (Hj : j < 3)
  (Hapi : api w = repeat ApiErr j ++ ApiOk tid :: rest) :
  post_attempts text parent [0; 1; 2] w =
    (Ok (Some tid), mkWorld (files w) (rng w) rest
                      (posted w ++ [(text, truthy_id parent)])
                      (slept w ++ firstn j [2; 4; 6])).
Proof.
  destruct w as [f r a p sl]; simpl in Hapi |- *; subst a.
  destruct j as [|[|[|j]]]; [| | | lia];
    cbv [post_attempts try_except bind create_tweet sleep ret raise]; simpl;
    rewrite ?app_nil_r, <- ?app_assoc; reflexivity.
Qed.

(** X7: a segment whose three attempts all fail raises the API's error after
    sleeping 2, 4 and 6 seconds, and nothing is posted. *)
Theorem post_attempts_three_failures (text : json) (parent : option pystr)
  (rest : list api_result) (w : world)
  (Hapi : api w = [ApiErr; ApiErr; ApiErr] ++ rest) :
  post_attempts text parent [0; 1; 2] w =
    (Raise TweepyException,
     mkWorld (files w) (rng w) rest (posted w) (slept w ++ [2; 4; 6])).
Proof.
  destruct w as [f r a p sl]; simpl in Hapi |- *; subst a.
  cbv [post_attempts try_except bind create_tweet sleep ret raise]; simpl.
  rewrite <- !app_assoc. reflexivity.
Qed.

(** X8: whatever the API answers, the texts [post_thread] posts are the
    first [k] segments of the thread, in order: all of them when it returns,
    a proper prefix when it raises. *)
Theorem post_thread_posts_prefix (tweets : list json) (w : world) :
  exists k, k <= length tweets /\
    map fst (posted (snd (post_thread tweets w))) = map fst (posted w) ++ firstn k tweets /\
    (forall v, fst (post_thread tweets w) = Ok v -> k = length tweets) /\
    (forall e, fst (post_thread tweets w) = Raise e -> k < length tweets).
Proof. exact (post_loop_prefix tweets None None w). Qed.

(* ------------------------------------------------------------------ *)
(** ** The history file *)

Lemma save_log_ok_inv (entry : json) (w w' : world) (u : unit) :
  save_log entry w = (Ok u, w') ->
  exists hs, match files w LOG_FILE with Some (Json v) => v | _ => JArr [] end = JArr hs /\
    w' = set_files w (fun p => if String.eqb p LOG_FILE
                               then Some (Json (JArr (hs ++ [entry]))) else files w p).
Proof.
  unfold save_log, bind. rewrite load_log_eq. cbv beta iota.
  destruct (match files w LOG_FILE with Some (Json v) => v | _ => JArr [] end) eqn:E;
    try discriminate.
  unfold json_dump_file. intros H. exists l. split; [reflexivity|].
  destruct (files w LOG_FILE) as [[| |v]|]; [discriminate H| | |];
    destruct (has_surrogate (JArr (l ++ [entry]))); try discriminate H;
    injection H as _ <-; reflexivity.
Qed.

(** X9: when the history file holds a JSON value other than a list (an
    object, a string, a number, ...), [save_log] raises [AttributeError] and
    changes nothing. *)
Theorem save_log_non_list_raises (entry v : json) (w : world)
  (Hfile : files w LOG_FILE = Some (Json v)) (Hv : forall hs, v <> JArr hs) :
  save_log entry w = (Raise AttributeError, w).
Proof.
  unfold save_log, bind. rewrite load_log_eq, Hfile. cbv beta iota.
  destruct v; try reflexivity. exfalso. exact (Hv l eq_refl).
Qed.

(** X10: when the history file is missing, or is a file that opens but
    does not hold valid JSON, and the new record holds no lone surrogate,
    [save_log] overwrites it with a one-record history: whatever the file
    held is lost, and no other file changes. *)
Theorem save_log_discards_unreadable (entry : json) (w : world)
  (Hfile : files w LOG_FILE = None \/ files w LOG_FILE = Some NotJson)
  (Hentry : has_surrogate entry = false) :
  save_log entry w =
    (Ok tt, set_files w (fun p => if String.eqb p LOG_FILE
                                  then Some (Json (JArr [entry])) else files w p)).
Proof.
  unfold save_log, bind. rewrite load_log_eq.
  assert (Hs : has_surrogate (JArr ([] ++ [entry])) = false)
    by (simpl; rewrite Hentry; reflexivity).
  destruct Hfile as [H|H]; rewrite H; cbv beta iota; unfold json_dump_file;
    rewrite H, Hs; reflexivity.
Qed.

(* ------------------------------------------------------------------ *)
(** ** Effects that leave the posted tweets alone *)

(** [m] posts nothing, whether it returns or raises. *)
Definition keeps_posted {A} (m : M A) : Prop := forall w, posted (snd (m w)) = posted w.

Create HintDb keeps_posted.

Lemma keeps_posted_ret {A} (a : A) : keeps_posted (ret a).
Proof. intros w. reflexivity. Qed.

Lemma keeps_posted_raise {A} (e : exn) : keeps_posted (@raise A e).
Proof. intros w. reflexivity. Qed.

Lemma keeps_posted_bind {A B} (m : M A) (k : A -> M B) :
  keeps_posted m -> (forall a, keeps_posted (k a)) -> keeps_posted (bind m k).
Proof.
  intros Hm Hk w. unfold bind. specialize (Hm w).
  destruct (m w) as [[a|e] w'] eqn:E; simpl in *; [rewrite Hk|]; exact Hm.
Qed.

Lemma keeps_posted_try {A} (m : M A) (h : exn -> M A) :
  keeps_posted m -> (forall e, keeps_posted (h e)) -> keeps_posted (try_except m h).
Proof.
  intros Hm Hh w. unfold try_except. specialize (Hm w).
  destruct (m w) as [[a|e] w'] eqn:E; simpl in *; [|rewrite Hh]; exact Hm.
Qed.

Lemma keeps_posted_os_path_exists fn : keeps_posted (os_path_exists fn).
Proof. intros w. reflexivity. Qed.

Lemma keeps_posted_json_load_file fn : keeps_posted (json_load_file fn).
Proof. intros w. unfold json_load_file. destruct (files w fn) as [[| |]|]; reflexivity. Qed.

Lemma keeps_posted_json_dump_file fn v : keeps_posted (json_dump_file fn v).
Proof.
  intros w. unfold json_dump_file.
  destruct (files w fn) as [[| |]|]; [|destruct (has_surrogate v)..]; reflexivity.
Qed.

Lemma keeps_posted_rand_below n : keeps_posted (rand_below n).
Proof. intros w. unfold rand_below. destruct (rng w); reflexivity. Qed.

#[local] Hint Resolve keeps_posted_ret keeps_posted_raise keeps_posted_os_path_exists
  keeps_posted_json_load_file keeps_posted_json_dump_file keeps_posted_rand_below
  : keeps_posted.

Ltac solve_keeps_posted :=
  repeat match goal with
  | |- forall _, _ => intro
  | |- keeps_posted (bind _ _) => apply keeps_posted_bind
  | |- keeps_posted (try_except _ _) => apply keeps_posted_try
  | |- keeps_posted (match ?x with _ => _ end) => destruct x
  | |- keeps_posted (if ?b then _ else _) => destruct b
  | |- keeps_posted _ => solve [eauto with keeps_posted]
  end.

Lemma keeps_posted_random_choice {A} (l : list A) : keeps_posted (random_choice l).
Proof. unfold random_choice. solve_keeps_posted. Qed.

Lemma keeps_posted_random_sample {A} (l : list A) k : keeps_posted (random_sample l k).
Proof. revert l. induction k; intros l; simpl; solve_keeps_posted. Qed.

Lemma keeps_posted_get_item h k : keeps_posted (get_item h k).
Proof. unfold get_item. solve_keeps_posted. Qed.

Lemma keeps_posted_py_iter v : keeps_posted (py_iter v).
Proof. unfold py_iter. solve_keeps_posted. Qed.

#[local] Hint Resolve keeps_posted_random_choice keeps_posted_random_sample
  keeps_posted_get_item keeps_posted_py_iter : keeps_posted.

Lemma keeps_posted_load_log : keeps_posted load_log.
Proof. unfold load_log. solve_keeps_posted. Qed.

Lemma keeps_posted_collect_used hs : keeps_posted (collect_used hs).
Proof. induction hs; simpl; solve_keeps_posted. Qed.

Lemma keeps_posted_filter_unused pool used : keeps_posted (filter_unused pool used).
Proof. induction pool; simpl; solve_keeps_posted. Qed.

#[local] Hint Resolve keeps_posted_load_log keeps_posted_collect_used
  keeps_posted_filter_unused : keeps_posted.

Lemma keeps_posted_pick_fallback pool : keeps_posted (pick_fallback pool).
Proof. unfold pick_fallback. solve_keeps_posted. Qed.

Lemma keeps_posted_pick_hashtags : keeps_posted pick_hashtags.
Proof. unfold pick_hashtags. solve_keeps_posted. Qed.

#[local] Hint Resolve keeps_posted_pick_fallback keeps_posted_pick_hashtags : keeps_posted.

Lemma keeps_posted_parse_thread_list raw : keeps_posted (parse_thread_list raw).
Proof. unfold parse_thread_list. solve_keeps_posted. Qed.

Lemma keeps_posted_call_hf_inference hf : keeps_posted (call_hf_inference hf).
Proof. unfold call_hf_inference. solve_keeps_posted. Qed.

#[local] Hint Resolve keeps_posted_parse_thread_list keeps_posted_call_hf_inference
  : keeps_posted.

Lemma keeps_posted_select_thread run_mode pool hf :
  keeps_posted (select_thread run_mode pool hf).
Proof. unfold select_thread. solve_keeps_posted. Qed.

(* ------------------------------------------------------------------ *)
(** ** Results of a computation that returns *)

(** Every value [m] returns satisfies [P]. *)
Definition ok_satisfies {A} (P : A -> Prop) (m : M A) : Prop :=
  forall w a w', m w = (Ok a, w') -> P a.

Lemma ok_satisfies_ret {A} (P : A -> Prop) (a : A) : P a -> ok_satisfies P (ret a).
Proof. intros Ha w a' w' H. injection H as <- _. exact Ha. Qed.

Lemma ok_satisfies_bind {A B} (P : B -> Prop) (m : M A) (k : A -> M B) :
  (forall a, ok_satisfies P (k a)) -> ok_satisfies P (bind m k).
Proof.
  intros Hk w b w' H. unfold bind in H.
  destruct (m w) as [[a|e] w1]; [exact (Hk a _ _ _ H) | discriminate].
Qed.

Lemma ok_satisfies_try {A} (P : A -> Prop) (m : M A) (h : exn -> M A) :
  ok_satisfies P m -> (forall e, ok_satisfies P (h e)) -> ok_satisfies P (try_except m h).
Proof.
  intros Hm Hh w a w' H. unfold try_except in H.
  destruct (m w) as [[a0|e] w1] eqn:E.
  - injection H as <- _. exact (Hm _ _ _ E).
  - exact (Hh e _ _ _ H).
Qed.

Lemma select_thread_source run_mode pool hf :
  ok_satisfies (fun r => snd r = s "ai" \/ snd r = s "fallback")
               (select_thread run_mode pool hf).
Proof.
  unfold select_thread. destruct (str_eqb run_mode EVENING).
  - apply ok_satisfies_bind. intros t. apply ok_satisfies_ret. right. reflexivity.
  - apply ok_satisfies_bind. intros _. apply ok_satisfies_try.
    + apply ok_satisfies_bind. intros raw. apply ok_satisfies_bind. intros ts.
      apply ok_satisfies_ret. left. reflexivity.
    + intros e. apply ok_satisfies_bind. intros t. apply ok_satisfies_ret.
      right. reflexivity.
Qed.

(* ------------------------------------------------------------------ *)
(** ** Reading the history leaves the world alone *)

Lemma get_item_world (h : json) (k : pystr) (w : world) : snd (get_item h k w) = w.
Proof. unfold get_item. destruct h; try reflexivity. destruct (obj_lookup k kvs); reflexivity. Qed.

Lemma py_iter_world (v : json) (w : world) : snd (py_iter v w) = w.
Proof. destruct v; reflexivity. Qed.

Lemma collect_used_world (hs : list json) (w : world) : snd (collect_used hs w) = w.
Proof.
  induction hs as [|h hs IH]; [reflexivity|]. cbn [collect_used]. unfold bind.
  pose proof (get_item_world h (s "source") w) as E1.
  destruct (get_item h (s "source") w) as [[src|e] w1]; simpl in E1; subst w1; [|reflexivity].
  destruct (py_eq_str src (s "fallback")); [|exact IH].
  pose proof (get_item_world h (s "tweets") w) as E2.
  destruct (get_item h (s "tweets") w) as [[tw|e] w2]; simpl in E2; subst w2; [|reflexivity].
  pose proof (py_iter_world tw w) as E3.
  destruct (py_iter tw w) as [[key|e] w3]; simpl in E3; subst w3; [|reflexivity].
  destruct (forallb hashable key); [|reflexivity].
  destruct (collect_used hs w) as [[rest|e] w4]; simpl in *; exact IH.
Qed.

Lemma pick_fallback_nil (w : world) : exists e, pick_fallback [] w = (Raise e, w).
Proof.
  unfold pick_fallback, bind. rewrite load_log_eq. cbv beta iota.
  remember (match files w LOG_FILE with Some (Json v) => v | _ => JArr [] end) as hv.
  pose proof (py_iter_world hv w) as E1.
  destruct (py_iter hv w) as [[hs|e] w1]; simpl in E1; subst w1; [|exists e; reflexivity].
  pose proof (collect_used_world hs w) as E2.
  destruct (collect_used hs w) as [[used|e] w2]; simpl in E2; subst w2;
    [|exists e; reflexivity].
  exists IndexError. reflexivity.
Qed.

Lemma select_thread_evening (run_mode : pystr) (pool : list (list json))
  (hf : option pystr) (w : world) :
  str_eqb run_mode EVENING = true ->
  select_thread run_mode pool hf w =
    match pick_fallback pool w with
    | (Ok t, w') => (Ok (t, s "fallback"), w')
    | (Raise e, w') => (Raise e, w')
    end.
Proof.
  intros H. unfold select_thread. rewrite H. unfold bind.
  destruct (pick_fallback pool w) as [[t|e] w']; reflexivity.
Qed.

(* ------------------------------------------------------------------ *)
(** ** The run *)

(** X11: in evening mode -- [RUN_MODE] equal to ["0 20 * * *"] once
    stripped -- the text generator is never consulted: the whole run, with
    its posts and its history entry, is the same whatever it would answer. *)
Theorem main_evening_ignores_hf (env : pystr) (hf hf' : option pystr) (utcnow : pystr)
  (w : world) (Hmode : strip env = EVENING) :
  main (Some env) hf utcnow w = main (Some env) hf' utcnow w.
Proof.
  unfold main. cbv beta iota zeta. rewrite Hmode. unfold select_thread.
  rewrite (str_eqb_refl EVENING). reflexivity.
Qed.

(** X12: outside evening mode, when the text generator fails, the thread
    and the rest of the run come from [pick_fallback] with the source tag
    ["fallback"], after one draw for the (unused) topic. *)
Theorem select_thread_hf_failure (run_mode : pystr) (pool : list (list json)) (w : world)
  (Hmode : str_eqb run_mode EVENING = false) :
  exists topic w1, random_choice TOPICS w = (Ok topic, w1) /\
    select_thread run_mode pool None w =
      match pick_fallback pool w1 with
      | (Ok t, w2) => (Ok (t, s "fallback"), w2)
      | (Raise e, w2) => (Raise e, w2)
      end.
Proof.
  destruct (random_choice_spec TOPICS w) as [x [w1 [H _]]]; [discriminate|].
  exists x, w1. split; [exact H|].
  unfold select_thread. rewrite Hmode. unfold bind. rewrite H.
  unfold try_except, call_hf_inference, raise. cbv beta iota.
  destruct (pick_fallback pool w1) as [[t|e] w2]; reflexivity.
Qed.

(** [m] does not look at the files: run on any other file system, it
    returns the same result, makes the same other effects, and leaves that
    file system as it found it. *)
Definition files_blind {A} (m : M A) : Prop :=
  forall w f, m (set_files w f) = (fst (m w), set_files (snd (m w)) f).

Lemma files_blind_ret {A} (a : A) : files_blind (ret a).
Proof. intros w f. reflexivity. Qed.

Lemma files_blind_raise {A} (e : exn) : files_blind (@raise A e).
Proof. intros w f. reflexivity. Qed.

Lemma files_blind_bind {A B} (m : M A) (k : A -> M B) :
  files_blind m -> (forall a, files_blind (k a)) -> files_blind (bind m k).
Proof.
  intros Hm Hk w f. unfold bind. rewrite Hm.
  destruct (m w) as [[a|e] w']; simpl; [apply Hk | reflexivity].
Qed.

Lemma files_blind_rand_below n : files_blind (rand_below n).
Proof. intros w f. unfold rand_below. simpl. destruct (rng w); reflexivity. Qed.

Lemma files_blind_random_choice {A} (l : list A) : files_blind (random_choice l).
Proof.
  destruct l as [|d l]; [apply files_blind_raise|].
  apply files_blind_bind; [apply files_blind_rand_below | intros i; apply files_blind_ret].
Qed.

Lemma files_blind_random_sample {A} (l : list A) (k : nat) : files_blind (random_sample l k).
Proof.
  revert l. induction k as [|k IH]; intros l; [apply files_blind_ret|].
  destruct l as [|d l']; [apply files_blind_raise|]. simpl.
  apply files_blind_bind; [apply files_blind_rand_below | intros i].
  apply files_blind_bind; [apply IH | intros rest; apply files_blind_ret].
Qed.

Lemma files_blind_pick_hashtags : files_blind pick_hashtags.
Proof.
  unfold pick_hashtags.
  apply files_blind_bind; [apply files_blind_random_choice | intros bucket].
  apply files_blind_bind; [apply files_blind_random_choice | intros k].
  apply files_blind_bind; [apply files_blind_random_sample | intros tags].
  apply files_blind_ret.
Qed.

Lemma files_blind_parse_thread_list raw : files_blind (parse_thread_list raw).
Proof.
  unfold parse_thread_list. cbv zeta.
  apply files_blind_bind; [apply files_blind_pick_hashtags | intros ht].
  apply files_blind_ret.
Qed.

(** X13: outside evening mode, when the text generator answers with [raw],
    the run draws the topic and then posts the five segments that
    [parse_thread_list raw] composes, with the source tag ["ai"].  Neither
    the fallback pool nor any file is read on the way: on any file system
    [f] the result is the same and [f] is left as it was. *)
Theorem select_thread_ai (run_mode raw : pystr) (w : world)
  (Hmode : str_eqb run_mode EVENING = false) :
  exists topic w1 ts w',
    random_choice TOPICS w = (Ok topic, w1) /\
    parse_thread_list raw w1 = (Ok ts, w') /\
    length ts = 5 /\ files w' = files w /\
    forall pool f, select_thread run_mode pool (Some raw) (set_files w f) =
                   (Ok (map JStr ts, s "ai"), set_files w' f).
Proof.
  destruct (random_choice_spec TOPICS w) as [x [w1 [H1 [_ F1]]]]; [discriminate|].
  destruct (parse_thread_list_eq raw w1) as [ht [w2 H2]].
  pose proof (keeps_parse_thread_list raw w1) as F2. rewrite H2 in F2. simpl in F2.
  exists x, w1,
    (set_last (thread_segments raw)
       (clamp_tweet (last_augmented (last (thread_segments raw) []) ht))), w2.
  split; [exact H1|]. split; [exact H2|].
  split; [|split; [congruence|]].
  - rewrite set_last_length; [apply thread_segments_length|].
    intros E. pose proof (thread_segments_length raw) as L. rewrite E in L. discriminate.
  - intros pool f. unfold select_thread. rewrite Hmode. unfold bind.
    rewrite (files_blind_random_choice TOPICS w f), H1. cbn [fst snd]. cbv beta iota.
    unfold try_except, call_hf_inference, ret. cbv beta iota.
    rewrite (files_blind_parse_thread_list raw w1 f), H2. reflexivity.
Qed.

(** X14: when [fallback.json] holds an empty list, an evening run raises
    before posting anything, and the world -- files, history and posts -- is
    left as it was. *)
Theorem main_evening_empty_pool (env : pystr) (hf : option pystr) (utcnow : pystr)
  (w : world) (Hmode : strip env = EVENING)
  (Hpool : files w "fallback.json"%string = Some (Json (JArr []))) :
  exists e, main (Some env) hf utcnow w = (Raise e, w).
Proof.
  destruct (pick_fallback_nil w) as [e He]. exists e.
  assert (L : load_fallback_threads "fallback.json" w = (Ok [], w)).
  { unfold load_fallback_threads, try_except, bind, json_load_file.
    rewrite Hpool. reflexivity. }
  unfold main. cbv beta iota zeta. rewrite Hmode. unfold bind at 1. rewrite L.
  unfold bind. rewrite (select_thread_evening EVENING [] hf w (str_eqb_refl EVENING)).
  rewrite He. reflexivity.
Qed.

(** X15: a run that completes appends exactly one entry to the history it
    found -- stamped with the run's time, tagged ["ai"] or ["fallback"], and
    holding exactly the segments the run posted, in order -- and changes no
    other file. *)
Theorem main_logs_posted_thread (env hf : option pystr) (utcnow : pystr) (w w' : world)
  (Hrun : main env hf utcnow w = (Ok tt, w')) :
  exists hs tweets source first_id,
    load_log w = (Ok (JArr hs), w) /\
    files w' LOG_FILE =
      Some (Json (JArr (hs ++ [log_entry (utcnow ++ s "Z") source tweets first_id]))) /\
    (forall p, p <> LOG_FILE -> files w' p = files w p) /\
    map fst (posted w') = map fst (posted w) ++ tweets /\
    (source = s "ai" \/ source = s "fallback").
Proof.
  unfold main, bind, post_thread in Hrun. cbv beta zeta in Hrun.
  destruct (load_fallback_threads_keeps_world "fallback.json" w) as [pool L].
  rewrite L in Hrun. cbv beta iota in Hrun.
  set (rm := strip (match env with Some v => v | None => [] end)) in Hrun.
  pose proof (keeps_select_thread rm pool hf w) as K1.
  pose proof (keeps_posted_select_thread rm pool hf w) as P1.
  destruct (select_thread rm pool hf w) as [[[tweets source]|e] w1] eqn:E1;
    [|discriminate].
  pose proof (select_thread_source rm pool hf w _ _ E1) as S1. simpl in K1, P1, S1.
  pose proof (keeps_post_loop tweets None None w1) as K2.
  destruct (post_loop_prefix tweets None None w1) as [k [_ [Hpk [Hok _]]]].
  destruct (post_loop tweets None None w1) as [[fid|e] w2] eqn:E2; [|discriminate].
  simpl in K2, Hpk, Hok. specialize (Hok fid eq_refl). subst k.
  rewrite firstn_all in Hpk.
  destruct (save_log_ok_inv _ _ _ _ Hrun) as [hs [Hh ->]].
  exists hs, tweets, source, fid.
  assert (F : files w2 = files w) by congruence.
  split; [|split; [|split; [|split]]].
  - rewrite load_log_eq. rewrite F in Hh. rewrite Hh. reflexivity.
  - simpl. rewrite ?String.eqb_refl. reflexivity.
  - intros p Hp. simpl. apply String.eqb_neq in Hp. rewrite Hp. rewrite F. reflexivity.
  - simpl. rewrite Hpk, P1. reflexivity.
  - exact S1.
Qed.

(* ------------------------------------------------------------------ *)
(** ** Edge cases of the composer and of the history *)

Lemma lstrip_chars_all (chars x : pystr) :
  forallb (fun d => existsb (N.eqb d) chars) x = true -> lstrip_chars chars x = [].
Proof.
  induction x as [|c x IH]; simpl; [reflexivity|].
  intros H. apply andb_true_iff in H as [H1 H2]. rewrite H1. exact (IH H2).
Qed.

(** X16: a line of the generated text that starts with a digit and consists
    only of marker characters (["1."], ["2)"], ["3 -"], ...) becomes an empty
    segment of the thread, at the line's place among the first four. *)
Theorem parse_thread_list_marker_only_line (raw : pystr) (w : world) (i : nat)
  (c : N) (rest : pystr) (Hi : i < 4)
  (Hline : nth_error (nonempty_lines raw) i = Some (c :: rest))
  (Hdigit : isdigit c = true)
  (Hmarks : forallb (fun d => existsb (N.eqb d) (s "12345). -")) (c :: rest) = true) :
  exists ts w', parse_thread_list raw w = (Ok ts, w') /\ nth_error ts i = Some [].
Proof.
  destruct (parse_thread_list_eq raw w) as [ht [w' H]]. eexists. exists w'.
  split; [exact H|].
  rewrite set_last_nth by (rewrite thread_segments_length; lia).
  rewrite thread_segments_nth by lia.
  assert (Hl : i < length (nonempty_lines raw)) by (apply nth_error_Some; congruence).
  destruct (Nat.ltb_spec i (length (nonempty_lines raw))) as [_|C]; [|lia].
  rewrite (nth_error_nth _ _ _ Hline).
  unfold strip_ordinal. rewrite Hdigit, (lstrip_chars_all _ _ Hmarks). reflexivity.
Qed.

(** X17: a history whose first record has no ["source"] key makes
    [pick_fallback] raise [KeyError], whatever the pool; nothing changes. *)
Theorem pick_fallback_record_without_source (pool : list (list json))
  (kvs : list (pystr * json)) (hs : list json) (w : world)
  (Hfile : files w LOG_FILE = Some (Json (JArr (JObj kvs :: hs))))
  (Hsrc : obj_lookup (s "source") kvs = None) :
  pick_fallback pool w = (Raise KeyError, w).
Proof.
  assert (G : get_item (JObj kvs) (s "source") w = (Raise KeyError, w)).
  { unfold get_item. rewrite Hsrc. reflexivity. }
  unfold pick_fallback, bind. rewrite load_log_eq, Hfile. cbv beta iota.
  cbv [py_iter ret]. cbv beta iota. cbn [collect_used]. unfold bind.
  rewrite G. reflexivity.
Qed.

(* ------------------------------------------------------------------ *)
(** ** Sample runs for the properties above *)

Definition world_chain : world :=
  mkWorld (fun _ => None) [] [ApiOk (s "1"); ApiOk (s "2")] [] [].

Lemma post_thread_chain_witness :
  length [s "1"; s "2"] = length [JStr (s "a"); JStr (s "b")] /\
  api world_chain = map ApiOk [s "1"; s "2"] ++ [] /\
  post_thread [JStr (s "a"); JStr (s "b")] world_chain =
    (Ok (Some (s "1")),
     mkWorld (fun _ => None) [] []
             [(JStr (s "a"), None); (JStr (s "b"), Some (s "1"))] [2; 2]).
Proof.
  assert (H1 : length [s "1"; s "2"] = length [JStr (s "a"); JStr (s "b")]) by reflexivity.
  assert (H2 : api world_chain = map ApiOk [s "1"; s "2"] ++ []) by reflexivity.
  split; [exact H1|]. split; [exact H2|].
  exact (post_thread_chain _ _ _ _ H1 H2).
Defined.

Definition world_retry : world :=
  mkWorld (fun _ => None) [] [ApiErr; ApiErr; ApiOk (s "7")] [] [].

Lemma post_attempts_retry_witness :
  2 < 3 /\ api world_retry = repeat ApiErr 2 ++ ApiOk (s "7") :: [] /\
  post_attempts (JStr (s "a")) None [0; 1; 2] world_retry =
    (Ok (Some (s "7")), mkWorld (fun _ => None) [] [] [(JStr (s "a"), None)] [2; 4]).
Proof.
  assert (H1 : 2 < 3) by lia.
  assert (H2 : api world_retry = repeat ApiErr 2 ++ ApiOk (s "7") :: []) by reflexivity.
  split; [exact H1|]. split; [exact H2|].
  exact (post_attempts_retry (JStr (s "a")) None 2 (s "7") [] world_retry H1 H2).
Defined.

Definition world_fail3 : world :=
  mkWorld (fun _ => None) [] [ApiErr; ApiErr; ApiErr; ApiOk (s "9")] [] [].

Lemma post_attempts_three_failures_witness :
  api world_fail3 = [ApiErr; ApiErr; ApiErr] ++ [ApiOk (s "9")] /\
  post_attempts (JStr (s "a")) (Some (s "1")) [0; 1; 2] world_fail3 =
    (Raise TweepyException, mkWorld (fun _ => None) [] [ApiOk (s "9")] [] [2; 4; 6]).
Proof.
  assert (H : api world_fail3 = [ApiErr; ApiErr; ApiErr] ++ [ApiOk (s "9")])
    by reflexivity.
  split; [exact H|].
  exact (post_attempts_three_failures (JStr (s "a")) (Some (s "1")) _ world_fail3 H).
Defined.

Lemma save_log_non_list_raises_witness :
  files world_c8 LOG_FILE = Some (Json (JObj [])) /\
  (forall hs, JObj [] <> JArr hs) /\
  save_log JNull world_c8 = (Raise AttributeError, world_c8).
Proof.
  assert (H1 : files world_c8 LOG_FILE = Some (Json (JObj []))) by reflexivity.
  assert (H2 : forall hs, JObj [] <> JArr hs) by (intros hs E; discriminate E).
  split; [exact H1|]. split; [exact H2|].
  exact (save_log_non_list_raises JNull (JObj []) world_c8 H1 H2).
Defined.

(** A history file that is not valid JSON. *)
Definition world_corrupt_log : world :=
  set_files empty_world (fun p => if String.eqb p LOG_FILE then Some NotJson else None).

Lemma save_log_discards_unreadable_witness :
  files world_corrupt_log LOG_FILE = Some NotJson /\
  has_surrogate JNull = false /\
  save_log JNull world_corrupt_log =
    (Ok tt, set_files world_corrupt_log
              (fun p => if String.eqb p LOG_FILE then Some (Json (JArr [JNull]))
                        else files world_corrupt_log p)).
Proof.
  assert (H : files world_corrupt_log LOG_FILE = Some NotJson) by reflexivity.
  split; [exact H|]. split; [reflexivity|].
  exact (save_log_discards_unreadable JNull world_corrupt_log (or_intror H) eq_refl).
Defined.

(** ["0 20 * * *"] with surrounding blanks and a newline. *)
Definition env_evening : pystr := s " 0 20 * * *" ++ [10%N].

Lemma main_evening_ignores_hf_witness :
  strip env_evening = EVENING /\
  main (Some env_evening) None (s "2025-01-01T20:00:00") world_c5 =
    main (Some env_evening) (Some (s "1. Tip")) (s "2025-01-01T20:00:00") world_c5.
Proof.
  assert (H : strip env_evening = EVENING) by (vm_compute; reflexivity).
  split; [exact H|].
  exact (main_evening_ignores_hf env_evening None (Some (s "1. Tip"))
           (s "2025-01-01T20:00:00") world_c5 H).
Defined.

Lemma select_thread_hf_failure_witness :
  str_eqb [] EVENING = false /\
  exists topic w1, random_choice TOPICS world_c5 = (Ok topic, w1) /\
    select_thread [] DEFAULT_POOL None world_c5 =
      match pick_fallback DEFAULT_POOL w1 with
      | (Ok t, w2) => (Ok (t, s "fallback"), w2)
      | (Raise e, w2) => (Raise e, w2)
      end.
Proof.
  assert (H : str_eqb [] EVENING = false) by reflexivity.
  split; [exact H|].
  exact (select_thread_hf_failure [] DEFAULT_POOL world_c5 H).
Defined.

Lemma select_thread_ai_witness :
  str_eqb (s "0 8 * * *") EVENING = false /\
  exists topic w1 ts w',
    random_choice TOPICS world_c5 = (Ok topic, w1) /\
    parse_thread_list (s "1. Tip") w1 = (Ok ts, w') /\
    length ts = 5 /\ files w' = files world_c5 /\
    forall pool f, select_thread (s "0 8 * * *") pool (Some (s "1. Tip")) (set_files world_c5 f) =
                   (Ok (map JStr ts, s "ai"), set_files w' f).
Proof.
  assert (H : str_eqb (s "0 8 * * *") EVENING = false) by reflexivity.
  split; [exact H|].
  exact (select_thread_ai (s "0 8 * * *") (s "1. Tip") world_c5 H).
Defined.

(** [fallback.json] holding the empty list. *)
Definition world_empty_pool : world :=
  mkWorld (fun p => if String.eqb p "fallback.json" then Some (Json (JArr [])) else None)
          [] [ApiOk (s "1")] [] [].

Lemma main_evening_empty_pool_witness :
  strip EVENING = EVENING /\
  files world_empty_pool "fallback.json"%string = Some (Json (JArr [])) /\
  exists e, main (Some EVENING) None (s "2025-01-01T20:00:00") world_empty_pool =
              (Raise e, world_empty_pool).
Proof.
  assert (H1 : strip EVENING = EVENING) by (vm_compute; reflexivity).
  assert (H2 : files world_empty_pool "fallback.json"%string = Some (Json (JArr [])))
    by reflexivity.
  split; [exact H1|]. split; [exact H2|].
  exact (main_evening_empty_pool EVENING None (s "2025-01-01T20:00:00")
           world_empty_pool H1 H2).
Defined.

(** An evening run in which both segments of the pool's thread are
    accepted. *)
Definition world_run : world :=
  mkWorld (files world_c5) [] [ApiOk (s "1"); ApiOk (s "2")] [] [].

Definition world_run_after : world :=
  snd (main (Some EVENING) None (s "2025-01-01T20:00:00") world_run).

Lemma main_logs_posted_thread_witness :
  main (Some EVENING) None (s "2025-01-01T20:00:00") world_run = (Ok tt, world_run_after) /\
  exists hs tweets source first_id,
    load_log world_run = (Ok (JArr hs), world_run) /\
    files world_run_after LOG_FILE =
      Some (Json (JArr (hs ++ [log_entry (s "2025-01-01T20:00:00" ++ s "Z")
                                         source tweets first_id]))) /\
    (forall p, p <> LOG_FILE -> files world_run_after p = files world_run p) /\
    map fst (posted world_run_after) = map fst (posted world_run) ++ tweets /\
    (source = s "ai" \/ source = s "fallback").
Proof.
  assert (H : main (Some EVENING) None (s "2025-01-01T20:00:00") world_run =
                (Ok tt, world_run_after)) by (vm_compute; reflexivity).
  split; [exact H|].
  exact (main_logs_posted_thread (Some EVENING) None (s "2025-01-01T20:00:00")
           world_run world_run_after H).
Defined.

(** The generated text ["1.\nTip two"]. *)
Definition raw_marker : pystr := s "1." ++ [10%N] ++ s "Tip two".

Lemma parse_thread_list_marker_only_line_witness :
  nth_error (nonempty_lines raw_marker) 0 = Some (s "1.") /\
  exists ts w', parse_thread_list raw_marker empty_world = (Ok ts, w') /\
    nth_error ts 0 = Some [].
Proof.
  assert (H : nth_error (nonempty_lines raw_marker) 0 = Some (49%N :: [46%N]))
    by (vm_compute; reflexivity).
  split; [exact H|].
  exact (parse_thread_list_marker_only_line raw_marker empty_world 0 49%N [46%N]
           ltac:(lia) H eq_refl eq_refl).
Defined.

(** A history holding one record without a ["source"] key. *)
Definition world_no_source : world :=
  set_files empty_world
    (fun p => if String.eqb p LOG_FILE
              then Some (Json (JArr [JObj [(s "time", JStr (s "t"))]])) else None).

Lemma pick_fallback_record_without_source_witness :
  files world_no_source LOG_FILE = Some (Json (JArr [JObj [(s "time", JStr (s "t"))]])) /\
  obj_lookup (s "source") [(s "time", JStr (s "t"))] = None /\
  pick_fallback DEFAULT_POOL world_no_source = (Raise KeyError, world_no_source).
Proof.
  assert (H1 : files world_no_source LOG_FILE =
                 Some (Json (JArr [JObj [(s "time", JStr (s "t"))] ]))) by reflexivity.
  assert (H2 : obj_lookup (s "source") [(s "time", JStr (s "t"))] = None) by reflexivity.
  split; [exact H1|]. split; [exact H2|].
  exact (pick_fallback_record_without_source DEFAULT_POOL _ [] world_no_source H1 H2).
Defined.
